(** * pho: the gallery walker (version 1.2.2)

    A shallow embedding of [walkPath], [handleWalkError], [getNodes],
    [getHref], [getContentType] and of the [fetch] command's visitors,
    followed by the properties of the walk.

    Go strings are byte strings: [string] of [Stdlib.Strings.String].
    A Go [error] value is modelled by its dynamic type, and a call that
    can dereference a nil pointer returns an [outcome].  The world the
    walker acts on (the server behind [get], the log, the local files of
    [fetch]) is passed along as a state.  Closing a response body and the
    time stamp of a log line are left out. *)

From Stdlib Require Import String Ascii List ZArith Lia Bool DecimalString.
Import ListNotations.
Open Scope string_scope.

(** ** Functions of the Go standard library the walker calls

    [strings] and [path] as their documentation gives them; [path.Clean]
    works on the elements between the slashes. *)

Module strings.

(** [strings.HasPrefix s prefix]. *)
Fixpoint HasPrefix (s prefix : string) {struct prefix} : bool :=
  match prefix, s with
  | EmptyString, _ => true
  | String _ _, EmptyString => false
  | String a p, String b r => Ascii.eqb a b && HasPrefix r p
  end.

(** [strings.Contains s substr]: [substr] occurs at some offset of [s]. *)
Fixpoint Contains (s substr : string) : bool :=
  HasPrefix s substr ||
  match s with
  | EmptyString => false
  | String _ r => Contains r substr
  end.

(** [strings.Split s sep] for a separator of one byte: never empty. *)
Fixpoint Split (s : string) (sep : ascii) : list string :=
  match s with
  | EmptyString => [EmptyString]
  | String c r =>
      if Ascii.eqb c sep then EmptyString :: Split r sep
      else match Split r sep with
           | h :: t => String c h :: t
           | [] => [String c EmptyString]
           end
  end.

(** [strings.Join elems sep]. *)
Definition Join (elems : list string) (sep : string) : string :=
  String.concat sep elems.

End strings.

Module path.

(** One path element met by [path.Clean]; [out] is the cleaned path so
    far, last element first.  An empty element and [.] are dropped; [..]
    removes the element before it, is kept in front of a path that is not
    rooted and is dropped at the root. *)
Definition cleanStep (rooted : bool) (out : list string) (e : string)
  : list string :=
  if (e =? "") || (e =? ".") then out
  else if e =? ".." then
    match out with
    | top :: rest =>
        if top =? ".." then (if rooted then out else e :: out) else rest
    | [] => if rooted then [] else [e]
    end
  else e :: out.

(** [path.Clean]. *)
Definition Clean (p : string) : string :=
  if p =? "" then "."
  else
    let rooted := strings.HasPrefix p "/" in
    let out := fold_left (cleanStep rooted) (strings.Split p "/"%char) [] in
    let s := (if rooted then "/" else "") ++ strings.Join (rev out) "/" in
    if s =? "" then "." else s.

(** [path.Join]: the elements from the first non-empty one on, joined
    with slashes and cleaned; the empty string when there is none. *)
Fixpoint Join (elem : list string) : string :=
  match elem with
  | [] => ""
  | e :: rest =>
      if e =? "" then Join rest else Clean (strings.Join elem "/")
  end.

(** [path.Split]: the path up to and with its last slash, and the rest. *)
Fixpoint Split (p : string) : string * string :=
  match p with
  | EmptyString => ("", "")
  | String c r =>
      let (d, f) := Split r in
      if (d =? "") && negb (Ascii.eqb c "/"%char)
      then ("", String c f)
      else (String c d, f)
  end.

(** [path.Dir]. *)
Definition Dir (p : string) : string := Clean (fst (Split p)).

(** Removes the slashes at the end of a path. *)
Fixpoint stripTrailingSlashes (p : string) : string :=
  match p with
  | EmptyString => ""
  | String c r =>
      match stripTrailingSlashes r with
      | EmptyString => if Ascii.eqb c "/"%char then "" else String c ""
      | r' => String c r'
      end
  end.

(** [path.Base]. *)
Definition Base (p : string) : string :=
  if p =? "" then "."
  else
    let q := snd (Split (stripTrailingSlashes p)) in
    if q =? "" then "/" else q.

End path.

(** ** Errors *)

(** A Go [error] by its dynamic type: the [*errors.errorString] that
    [fmt.Errorf] builds, the walker's own [*leafError], the [io.EOF]
    value, and a value of any other type (a [*url.Error], a
    [*os.PathError], ...) with its message. *)
Inductive error : Type :=
| errorString (s : string)
| leafError (inner : error)
| io_EOF
| foreignError (msg : string).

(** The [Error()] method, which [%v] prints. *)
Fixpoint Error (e : error) : string :=
  match e with
  | errorString s => s
  | leafError inner => "Leaf error: " ++ Error inner
  | io_EOF => "EOF"
  | foreignError msg => msg
  end.

(** The type assertion of [handleWalkError]: is [err] a [*leafError]? *)
Definition is_leafError (e : error) : bool :=
  match e with leafError _ => true | _ => false end.

(** The comparison [err == io.EOF]. *)
Definition is_EOF (e : error) : bool :=
  match e with io_EOF => true | _ => false end.

(** What a call gives back: a value, or a run-time panic (the walker can
    dereference a nil [*http.Response]). *)
Inductive outcome (A : Type) : Type :=
| Returned (a : A)
| Panicked.
Arguments Returned {A} a.
Arguments Panicked {A}.

(** ** The tokens of [golang.org/x/net/html] *)

Module html.

(** The token types [Tokenizer.Next] gives while the document lasts;
    [ErrorToken] is the end of the token list of a [Body]. *)
Inductive TokenType : Type :=
| TextToken | StartTagToken | EndTagToken | SelfClosingTagToken
| CommentToken | DoctypeToken.

Record Attribute : Type := { Key : string; Val : string }.

Record Token : Type :=
  { Type_ : TokenType; Data : string; Attr : list Attribute }.

Definition isStartTag (t : TokenType) : bool :=
  match t with StartTagToken => true | _ => false end.

Definition quote : string := String "034"%char "".

(** [html.EscapeString]. *)
Fixpoint EscapeString (s : string) : string :=
  match s with
  | EmptyString => ""
  | String c r =>
      (if Ascii.eqb c "&"%char then "&amp;"
       else if Ascii.eqb c "'"%char then "&#39;"
       else if Ascii.eqb c "<"%char then "&lt;"
       else if Ascii.eqb c ">"%char then "&gt;"
       else if Ascii.eqb c "034"%char then "&#34;"
       else if Ascii.eqb c "013"%char then "&#13;"
       else String c "") ++ EscapeString r
  end.

Definition tagString (t : Token) : string :=
  fold_left
    (fun buf a => buf ++ " " ++ Key a ++ "=" ++ quote
                      ++ EscapeString (Val a) ++ quote)
    (Attr t) (Data t).

(** [Token.String], which [%v] prints. *)
Definition String_ (t : Token) : string :=
  match Type_ t with
  | TextToken => EscapeString (Data t)
  | StartTagToken => "<" ++ tagString t ++ ">"
  | EndTagToken => "</" ++ tagString t ++ ">"
  | SelfClosingTagToken => "<" ++ tagString t ++ "/>"
  | CommentToken => "<!--" ++ Data t ++ "-->"
  | DoctypeToken => "<!DOCTYPE " ++ Data t ++ ">"
  end.

End html.

(** A response body as the tokenizer reads it: the tokens before the
    first [ErrorToken], and the error [Tokenizer.Err] gives there
    ([io.EOF] at the end of the document). *)
Record Body : Type := { tokens : list html.Token; ending : error }.

(** The fields of [*http.Response] the walker reads; [RequestURL] is
    [resp.Request.URL] as [%v] prints it, [ContentType] is
    [resp.Header.Get("Content-Type")]. *)
Record Response : Type :=
  { RequestURL : string; Status : string; ContentType : string;
    body : Body }.

(** What [get] gives back: a response and a nil error, or an error with
    the response of the last attempt, nil when no attempt had one. *)
Inductive GetResult : Type :=
| GetOk (resp : Response)
| GetErr (resp : option Response) (err : error).

(** ** Link extraction *)

(** [getHref]: the value of the last [href] attribute. *)
Definition getHref (t : html.Token) : bool * string :=
  fold_left
    (fun (r : bool * string) a =>
       if html.Key a =? "href" then (true, html.Val a) else r)
    (html.Attr t) (false, "").

(** The loop of [getNodes]; [toks] is what the tokenizer has left and
    [nodes] the links so far.  It gives the links and the error the loop
    stopped on. *)
Fixpoint getNodes_loop (remotePath : string) (toks : list html.Token)
    (fin : error) (nodes : list string) : list string * error :=
  match toks with
  | [] => (nodes, fin)
  | t :: rest =>
      if html.isStartTag (html.Type_ t) && (html.Data t =? "a") then
        let (ok, node) := getHref t in
        let nodes' :=
          if negb (strings.Contains remotePath node)
          then (nodes ++ [node])%list else nodes in
        if ok then getNodes_loop remotePath rest fin nodes'
        else (nodes', errorString ("No url for " ++ html.String_ t))
      else getNodes_loop remotePath rest fin nodes
  end.

(** [getNodes]. *)
Definition getNodes (remotePath : string) (b : Body)
  : list string * option error :=
  let (nodes, err) := getNodes_loop remotePath (tokens b) (ending b) [] in
  (nodes, if is_EOF err then None else Some err).

(** [getContentType]. *)
Definition getContentType (resp : Response) : string :=
  hd "" (strings.Split (ContentType resp) ";"%char).

(** ** The walker *)

(** Go's [int], taken as 64 bits wide, with its wrap-around. *)
Definition int_wrap (z : Z) : Z :=
  ((z + 2 ^ 63) mod 2 ^ 64 - 2 ^ 63)%Z.

Definition int_add (a b : Z) : Z := int_wrap (a + b).

(** What the walker does to the world outside it: [get url] is the call
    of the retrying [get] (the response and error it gives back, and the
    world after it), [log_Printf] one formatted line on the log. *)
Class World (W : Type) : Type :=
  { get : string -> W -> GetResult * W;
    log_Printf : string -> W -> W }.

(** [indexAction] and [leafAction]: the visitors, closures over the
    state of their command. *)
Definition indexAction (W : Type) : Type :=
  string -> string -> Z -> W -> option error * W.

Definition leafAction (W : Type) : Type :=
  Response -> string -> string -> W -> option error * W.

Definition doNothingOnLeaf {W : Type} : leafAction W :=
  fun _ _ _ w => (None, w).

(** The error [walkPath] builds at its end:
    [fmt.Errorf("%v %v: %v", resp.Request.URL, resp.Status, err)]. *)
Definition wrapError (resp : Response) (err : error) : error :=
  errorString (RequestURL resp ++ " " ++ Status resp ++ ": " ++ Error err).

Section Walker.

Context {W : Type} {Wd : World W}.

(** [handleWalkError]. *)
Definition handleWalkError (err : option error) (w : W)
  : option error * W :=
  match err with
  | Some e =>
      if is_leafError e then (None, log_Printf (Error e) w)
      else (Some e, w)
  | None => (None, w)
  end.

(** The [for _, node := range nodes] loop of [walkPath]; [walk next d]
    is the recursive call on [next] at depth [d].  The value is the
    [err] of the [text/html] case when the loop ends; [None] is a
    recursive call that ran out of fuel. *)
Fixpoint rangeNodes
    (walk : string -> Z -> W -> option (outcome (option error) * W))
    (base : string) (recurse : bool) (depth : Z)
    (onIndex : indexAction W) (nodes : list string) (w : W)
  : option (outcome (option error) * W) :=
  match nodes with
  | [] => Some (Returned None, w)
  | node :: rest =>
      let (err, w1) := onIndex base node depth w in
      match err with
      | Some e => Some (Returned (Some e), w1)
      | None =>
          if recurse then
            let next := path.Join [base; node] in
            match walk next (int_add depth 1) w1 with
            | None => None
            | Some (Panicked, w2) => Some (Panicked, w2)
            | Some (Returned r, w2) =>
                let (err', w3) := handleWalkError r w2 in
                match err' with
                | Some e => Some (Returned (Some e), w3)
                | None =>
                    rangeNodes walk base recurse depth onIndex rest w3
                end
            end
          else rangeNodes walk base recurse depth onIndex rest w1
      end
  end.

(** The end of [walkPath] when its own [err] is nil. *)
Definition done (verbose : bool) (resp : Response) (ct : string) (w : W)
  : option (outcome (option error) * W) :=
  Some (Returned None,
        if verbose
        then log_Printf ("Done with: " ++ RequestURL resp ++ " "
                           ++ Status resp ++ " " ++ ct) w
        else w).

(** [walkPath].  [fuel] bounds the depth of the recursion, which the
    source does not bound: [None] is fuel that ran out.

    In the [text/html] case [nodes, err := getNodes(...)] declares a new
    [err] in the scope of the case: the loop assigns to that one, and
    the [err] tested at the end of the function is still nil. *)
Fixpoint walkPath (fuel : nat) (address base : string) (recurse : bool)
    (depth : Z) (verbose : bool)
    (onIndex : indexAction W) (onLeaf : leafAction W) (w : W) {struct fuel}
  : option (outcome (option error) * W) :=
  match fuel with
  | O => None
  | S fuel' =>
      let remotePath := path.Join ["/var/albums"; base] in
      match get (address ++ remotePath) w with
      | (GetOk resp, w1) =>
          let ct := getContentType resp in
          if ct =? "text/html" then
            let (nodes, err) := getNodes remotePath (body resp) in
            match err with
            | Some _ => done verbose resp ct w1
            | None =>
                match rangeNodes
                        (fun next d =>
                           walkPath fuel' address next recurse d verbose
                                    onIndex onLeaf)
                        base recurse depth onIndex nodes w1 with
                | None => None
                | Some (Panicked, w2) => Some (Panicked, w2)
                | Some (Returned _, w2) => done verbose resp ct w2
                end
            end
          else
            let (err, w2) := onLeaf resp base ct w1 in
            match err with
            | Some e =>
                Some (Returned (Some (wrapError resp (leafError e))), w2)
            | None => done verbose resp ct w2
            end
      | (GetErr None _, w1) => Some (Panicked, w1)
      | (GetErr (Some resp) err, w1) =>
          Some (Returned (Some (wrapError resp err)), w1)
      end
  end.

End Walker.

(** ** The [fetch] command *)

(** [%v] of an [int]. *)
Definition itoa (z : Z) : string := NilZero.string_of_int (Z.to_int z).

(** How a command ends: it returns, [log.Fatal] prints a line and exits,
    or a panic ends the process. *)
Inductive exit : Type :=
| Finished
| Fatal (msg : string)
| Crashed.

(** What a command reads of its [*cli.Context]. *)
Record cliContext : Type :=
  { GlobalString_url : string; Args : list string;
    Bool_recurse : bool; Bool_verbose : bool }.

Section Fetch.

Context {W : Type} {Wd : World W}.

(** The local file system the visitors of [fetch] work on; [io_Copy]
    is the copy of the response body into the file just created. *)
Variable os_Stat : string -> W -> option error * W.
Variable os_IsNotExist : option error -> bool.
Variable os_MkdirAll : string -> W -> option error * W.
Variable os_Create : string -> W -> option error * W.
Variable io_Copy : string -> Response -> W -> Z * option error * W.

(** The state the closures of [fetch] share: its variable [count] and
    the world outside. *)
Record FetchState : Type := { count : Z; world : W }.

Definition inWorld (s : FetchState) (w : W) : FetchState :=
  {| count := count s; world := w |}.

#[global] Instance FetchWorld : World FetchState :=
  { get url s := let (r, w) := get url (world s) in (r, inWorld s w);
    log_Printf msg s := inWorld s (log_Printf msg (world s)) }.

(** [onIndex] of [fetch]. *)
Definition fetch_onIndex (verbose : bool) : indexAction FetchState :=
  fun base node depth s =>
    (None, if verbose then log_Printf ("Traversing " ++ node) s else s).

(** [onLeaf] of [fetch]. *)
Definition fetch_onLeaf (localPath : string) (verbose : bool)
  : leafAction FetchState :=
  fun resp node ct s =>
    if (ct =? "image/png") || (ct =? "image/jpeg") then
      let folder := path.Join [localPath; path.Dir node] in
      let file := path.Base node in
      let localFile := path.Join [folder; file] in
      let (err, w1) := os_Stat localFile (world s) in
      if os_IsNotExist err then
        let (err, w2) := os_MkdirAll folder w1 in
        match err with
        | Some e => (Some e, inWorld s w2)
        | None =>
            let (err, w3) := os_Create localFile w2 in
            match err with
            | Some e => (Some e, inWorld s w3)
            | None =>
                let '(n, err, w4) := io_Copy localFile resp w3 in
                match err with
                | Some e => (Some e, inWorld s w4)
                | None =>
                    let w5 :=
                      if verbose
                      then log_Printf ("Downloaded " ++ itoa n
                                         ++ " bytes for " ++ localFile) w4
                      else w4 in
                    let count' := int_add (count s) 1 in
                    let w6 :=
                      if (Z.rem count' 100 =? 0)%Z
                      then log_Printf ("Downloaded " ++ itoa count'
                                         ++ " images") w5
                      else w5 in
                    (None, {| count := count'; world := w6 |})
                end
            end
        end
      else
        match err with
        | Some e => (Some e, inWorld s w1)
        | None => (None, inWorld s w1)
        end
    else
      (Some (errorString ("Unknown content type " ++ ct ++ ":" ++ node)), s).

(** [fetch]; [getAddress] ends the process when the [url] is empty. *)
Definition fetch (fuel : nat) (ctx : cliContext) (w : W)
  : option (exit * W) :=
  if GlobalString_url ctx =? "" then
    Some (Fatal "host or must be provided", w)
  else
    let address := GlobalString_url ctx in
    let recurse := Bool_recurse ctx in
    let verbose := Bool_verbose ctx in
    let remotePath := nth 0 (Args ctx) "/" in
    let localPath := nth 1 (Args ctx) "." in
    match walkPath fuel address remotePath recurse 0 verbose
                   (fetch_onIndex verbose) (fetch_onLeaf localPath verbose)
                   {| count := 0; world := w |} with
    | None => None
    | Some (Panicked, s) => Some (Crashed, world s)
    | Some (Returned (Some err), s) => Some (Fatal (Error err), world s)
    | Some (Returned None, s) => Some (Finished, world s)
    end.

End Fetch.

(** ** A world that records what the walker does *)

(** The calls a walk makes, in the order it makes them. *)
Inductive Event : Type :=
| EvGet (url : string)
| EvIndex (base node : string) (depth : Z)
| EvLeaf (base ct : string)
| EvLog (msg : string).

(** A server: what [get] gives for each URL. *)
Definition Site : Type := string -> GetResult.

(** The world of a server that does not change; its state is the list of
    the calls made so far. *)
Definition Recorded (site : Site) : World (list Event) :=
  {| get url tr := (site url, (tr ++ [EvGet url])%list);
     log_Printf msg tr := (tr ++ [EvLog msg])%list |}.

(** An index visitor that records its call and fails where [fails] says. *)
Definition recIndex (fails : string -> string -> bool)
  : indexAction (list Event) :=
  fun base node depth tr =>
    (if fails base node then Some (foreignError "index visitor failed")
     else None,
     (tr ++ [EvIndex base node depth])%list).

(** A leaf visitor that records its call and fails where [fails] says. *)
Definition recLeaf (fails : string -> bool) : leafAction (list Event) :=
  fun resp base ct tr =>
    (if fails base then Some (foreignError "leaf visitor failed") else None,
     (tr ++ [EvLeaf base ct])%list).

Definition never1 : string -> bool := fun _ => false.
Definition never2 : string -> string -> bool := fun _ _ => false.

(** The URLs fetched, in order. *)
Definition fetched (tr : list Event) : list string :=
  flat_map (fun e => match e with EvGet u => [u] | _ => [] end) tr.

(** The calls without the lines of the log. *)
Definition calls (tr : list Event) : list Event :=
  filter (fun e => match e with EvLog _ => false | _ => true end) tr.

(** *** Pages for the examples *)

Definition anchor (href : string) : html.Token :=
  {| html.Type_ := html.StartTagToken; html.Data := "a";
     html.Attr := [ {| html.Key := "href"; html.Val := href |} ] |}.

Definition tag (ty : html.TokenType) (name : string) : html.Token :=
  {| html.Type_ := ty; html.Data := name; html.Attr := [] |}.

(** A listing: one anchor per link, with its text and end tag. *)
Definition listing (hrefs : list string) : Body :=
  {| tokens :=
       (tag html.StartTagToken "html" :: tag html.StartTagToken "body"
        :: flat_map (fun h => [anchor h; tag html.TextToken h;
                               tag html.EndTagToken "a"]) hrefs
        ++ [tag html.EndTagToken "body"; tag html.EndTagToken "html"])%list;
     ending := io_EOF |}.

Definition htmlPage (url : string) (b : Body) : Response :=
  {| RequestURL := url; Status := "200 OK";
     ContentType := "text/html; charset=utf-8"; body := b |}.

Definition filePage (url ct : string) : Response :=
  {| RequestURL := url; Status := "200 OK"; ContentType := ct;
     body := {| tokens := []; ending := io_EOF |} |}.

(** The server of a list of pages; no other URL gives a response. *)
Fixpoint serve (pages : list Response) : Site :=
  fun url =>
    match pages with
    | [] => GetErr None (foreignError ("Get " ++ url ++ ": connection refused"))
    | r :: rest => if RequestURL r =? url then GetOk r else serve rest url
    end.

(** The gallery root -> {A, B}, A -> {A1, A2}, with A1, A2 and B images. *)
Definition gallery : Site :=
  serve
    [ htmlPage "http://g/var/albums" (listing ["A"; "B"]);
      htmlPage "http://g/var/albums/A" (listing ["A1"; "A2"]);
      filePage "http://g/var/albums/A/A1" "image/jpeg";
      filePage "http://g/var/albums/A/A2" "image/jpeg";
      filePage "http://g/var/albums/B" "image/jpeg" ].


(** ** What the properties speak of *)

(** The anchors of a document: the start tags named [a]. *)
Definition isAnchor (t : html.Token) : bool :=
  html.isStartTag (html.Type_ t) && (html.Data t =? "a").

Definition anchors (toks : list html.Token) : list html.Token :=
  filter isAnchor toks.

(** An anchor carries an href when one of its attributes has that key. *)
Definition carriesHref (t : html.Token) : bool :=
  existsb (fun a => html.Key a =? "href") (html.Attr t).

Definition href (t : html.Token) : string := snd (getHref t).

(** The links a listing keeps for the path [remotePath]. *)
Definition kept (remotePath : string) (toks : list html.Token) : list string :=
  filter (fun h => negb (strings.Contains remotePath h))
         (map href (anchors toks)).

(** The base paths with a [..] among their elements. *)
Definition hasDotDot (base : string) : bool :=
  existsb (fun e => e =? "..") (strings.Split base "/"%char).

(** A gallery as the walk finds it: an album with its links, in the order
    of their anchors, each with the gallery below it, or a file with its
    content type. *)
#[warnings="-register-all"]
Inductive Gallery : Type :=
| Album (children : list (string * Gallery))
| File (ct : string).

Fixpoint height (g : Gallery) : nat :=
  match g with
  | File _ => 1
  | Album children =>
      S (fold_right (fun c m => Nat.max (height (snd c)) m) 0 children)
  end.

(** [serves site address base g]: on [site], the page of [base] is the
    root of [g]. An album is a [text/html] page whose listing yields the
    links of the album, each serving its own gallery at the joined path;
    a file is a page of another content type. *)
Fixpoint serves (site : Site) (address base : string) (g : Gallery) : bool :=
  match site (address ++ path.Join ["/var/albums"; base]) with
  | GetOk resp =>
      match g with
      | File ct =>
          (getContentType resp =? ct) && negb (ct =? "text/html")
      | Album children =>
          (getContentType resp =? "text/html")
          && match getNodes (path.Join ["/var/albums"; base]) (body resp) with
             | (nodes, None) =>
                 if list_eq_dec string_dec nodes (map fst children)
                 then true else false
             | (_, Some _) => false
             end
          && forallb
               (fun c => serves site address (path.Join [base; fst c]) (snd c))
               children
      end
  | GetErr _ _ => false
  end.

(** The visits of a depth-first walk, in document order: the page itself,
    then for each link in turn the index visit of the link followed by
    all the visits of the gallery below it; a file is visited as a leaf. *)
Fixpoint visitOrder (address base : string) (depth : Z) (g : Gallery)
  : list Event :=
  EvGet (address ++ path.Join ["/var/albums"; base])
  :: match g with
     | File ct => [EvLeaf base ct]
     | Album children =>
         flat_map
           (fun c =>
              EvIndex base (fst c) depth
              :: visitOrder address (path.Join [base; fst c])
                            (int_add depth 1) (snd c))
           children
     end.

(** *** Servers and trees of the examples *)

(** The gallery of the examples as a tree. *)
Definition galleryTree : Gallery :=
  Album [ ("A", Album [ ("A1", File "image/jpeg"); ("A2", File "image/jpeg") ]);
          ("B", File "image/jpeg") ].

(** A listing whose second anchor has no href. *)
Definition malformed : Site :=
  serve
    [ htmlPage "http://g/var/albums"
        {| tokens := [anchor "A"; tag html.StartTagToken "a"; anchor "B"];
           ending := io_EOF |};
      filePage "http://g/var/albums/A" "image/jpeg";
      filePage "http://g/var/albums/B" "image/jpeg" ].

(** A server with one document that is no image. *)
Definition papers : Site :=
  serve [ filePage "http://g/var/albums/notes.pdf" "application/pdf" ].

(** A local file system on which nothing fails and nothing exists yet. *)
Definition os_ok (_ : string) (tr : list Event) : option error * list Event :=
  (None, tr).
Definition os_missing (_ : option error) : bool := true.
Definition io_ok (_ : string) (_ : Response) (tr : list Event)
  : Z * option error * list Event := (0%Z, None, tr).

Definition fetch_notes : cliContext :=
  {| GlobalString_url := "http://g"; Args := ["notes.pdf"];
     Bool_recurse := false; Bool_verbose := true |}.

(** * The rest of the program *)

(** ** The [ls] and [diff] commands *)

(** [strings.Repeat s count] for a count that is not negative; Go panics
    on a negative one, which a walk started at depth 0 does not reach
    before 2^63 levels. *)
Definition strings_Repeat (s : string) (count : Z) : string :=
  String.concat "" (repeat s (Z.to_nat count)).

Definition tab : string := String "009"%char "".
Definition newline : string := String "010"%char "".

(** [getAddress]: the [url] of the context; [None] is the [log.Fatal]
    of an empty one. *)
Definition getAddress (ctx : cliContext) : option string :=
  if GlobalString_url ctx =? "" then None else Some (GlobalString_url ctx).

Section Commands.

Context {W : Type} {Wd : World W}.

(** Standard output and the local file system. *)
Variable os_Stdout : string -> W -> W.
Variable os_Stat : string -> W -> option error * W.
Variable os_IsNotExist : option error -> bool.

(** How a command ends after its call of [walkPath]. *)
Definition afterWalk (r : option (outcome (option error) * W))
  : option (exit * W) :=
  match r with
  | None => None
  | Some (Panicked, w) => Some (Crashed, w)
  | Some (Returned (Some err), w) => Some (Fatal (Error err), w)
  | Some (Returned None, w) => Some (Finished, w)
  end.

(** [onIndex] of [ls]. *)
Definition ls_onIndex : indexAction W :=
  fun base node depth w =>
    (None, os_Stdout (strings_Repeat tab depth ++ node ++ newline) w).

(** [ls]. *)
Definition ls (fuel : nat) (ctx : cliContext) (w : W) : option (exit * W) :=
  match getAddress ctx with
  | None => Some (Fatal "host or must be provided", w)
  | Some address =>
      let recurse := Bool_recurse ctx in
      let verbose := Bool_verbose ctx in
      let remotePath := nth 0 (Args ctx) "" in
      afterWalk (walkPath fuel address remotePath recurse 0 verbose
                          ls_onIndex doNothingOnLeaf w)
  end.

(** [onIndex] of [diff]. *)
Definition diff_onIndex (localPath : string) : indexAction W :=
  fun base node depth w =>
    let location := path.Join [localPath; base; node] in
    let (err, w1) := os_Stat location w in
    if os_IsNotExist err then (None, os_Stdout (location ++ newline) w1)
    else match err with
         | Some e => (Some e, w1)
         | None => (None, w1)
         end.

(** [diff]. *)
Definition diff (fuel : nat) (ctx : cliContext) (w : W) : option (exit * W) :=
  match getAddress ctx with
  | None => Some (Fatal "host or must be provided", w)
  | Some address =>
      let recurse := Bool_recurse ctx in
      let verbose := Bool_verbose ctx in
      let remotePath := nth 0 (Args ctx) "/" in
      let localPath := nth 1 (Args ctx) "." in
      afterWalk (walkPath fuel address remotePath recurse 0 verbose
                          (diff_onIndex localPath) doNothingOnLeaf w)
  end.

End Commands.

(** ** [get] and its retries *)

Section Retry.

Context {W : Type}.

(** One attempt [httpClient.Get(url)], a line of the log, a sleep of so
    many nanoseconds, and [%v] of a [time.Duration]. *)
Variable httpClient_Get : string -> W -> GetResult * W.
Variable log_line : string -> W -> W.
Variable time_Sleep : Z -> W -> W.
Variable Duration_String : Z -> string.

(** [get]: [backoff.RetryNotify] as its documentation gives it, the
    operation tried again until it gives no error or the policy stops,
    [notify] called before each sleep.  [policy] is the list of the
    intervals [NextBackOff] gives before it gives [Stop]. *)
Fixpoint retrying_get (url : string) (policy : list Z) (w : W)
  : GetResult * W :=
  match httpClient_Get url w with
  | (GetOk resp, w1) => (GetOk resp, w1)
  | (GetErr resp err, w1) =>
      match policy with
      | [] => (GetErr resp err, w1)
      | t :: later =>
          let w2 := log_line (Error err ++ " waiting " ++ Duration_String t
                                ++ " to retry...") w1 in
          retrying_get url later (time_Sleep t w2)
      end
  end.

End Retry.

(** ** The walker of version 1.2.1 *)

Module V121.

Section Walker.

Context {W : Type} {Wd : World W}.

(** The [for] loop of [walkPath] over the tokens of an index page;
    [walk next d] is the recursive call.  The end of the tokens is the
    [ErrorToken], on which the function returns nil. *)
Fixpoint walkTokens
    (walk : string -> Z -> W -> option (option error * W))
    (remotePath base : string) (recurse : bool) (depth : Z)
    (onIndex : indexAction W) (toks : list html.Token) (w : W)
  : option (option error * W) :=
  match toks with
  | [] => Some (None, w)
  | t :: rest =>
      if html.isStartTag (html.Type_ t) then
        if html.Data t =? "a" then
          let (ok, node) := getHref t in
          if negb ok then
            Some (Some (errorString ("No url for " ++ html.String_ t)), w)
          else if strings.Contains remotePath node then
            walkTokens walk remotePath base recurse depth onIndex rest w
          else
            let next := path.Join [base; node] in
            let (err, w1) := onIndex base node depth w in
            match err with
            | Some e =>
                Some (Some (errorString ("Index error: " ++ Error e)), w1)
            | None =>
                if recurse then
                  match walk next (int_add depth 1) w1 with
                  | None => None
                  | Some (Some e, w2) =>
                      if is_leafError e then
                        walkTokens walk remotePath base recurse depth onIndex
                                   rest (log_Printf (Error e) w2)
                      else Some (Some e, w2)
                  | Some (None, w2) =>
                      walkTokens walk remotePath base recurse depth onIndex
                                 rest w2
                  end
                else
                  walkTokens walk remotePath base recurse depth onIndex rest w1
            end
        else walkTokens walk remotePath base recurse depth onIndex rest w
      else walkTokens walk remotePath base recurse depth onIndex rest w
  end.

(** [walkPath] of version 1.2.1; [None] is fuel that ran out. *)
Fixpoint walkPath (fuel : nat) (address base : string) (recurse : bool)
    (depth : Z) (onIndex : indexAction W) (onLeaf : leafAction W) (w : W)
    {struct fuel} : option (option error * W) :=
  match fuel with
  | O => None
  | S fuel' =>
      let remotePath := path.Join ["/var/albums"; base] in
      match get (address ++ remotePath) w with
      | (GetErr _ err, w1) => Some (Some err, w1)
      | (GetOk resp, w1) =>
          let ct := getContentType resp in
          if ct =? "text/html" then
            walkTokens
              (fun next d =>
                 walkPath fuel' address next recurse d onIndex onLeaf)
              remotePath base recurse depth onIndex (tokens (body resp)) w1
          else
            let (err, w2) := onLeaf resp base ct w1 in
            match err with
            | Some e => Some (Some (leafError e), w2)
            | None => Some (None, w2)
            end
      end
  end.

End Walker.

End V121.

(** ** Worlds and orders the further properties speak of *)

(** The world of a server that does not change, seen from standard
    output: the state is what was written there, the log is not kept. *)
Definition Quiet (site : Site) : World (list string) :=
  {| get url out := (site url, out);
     log_Printf _ out := out |}.

Definition stdout_append (s : string) (out : list string) : list string :=
  (out ++ [s])%list.

(** A local file system that does not change: [present] says which
    paths exist, and [os.Stat] fails on the others with an error that
    [os.IsNotExist] knows. *)
Definition stat_of (present : string -> bool) (p : string)
    (out : list string) : option error * list string :=
  (if present p then None
   else Some (foreignError ("stat " ++ p ++ ": no such file or directory")),
   out).

Definition isNotExist (err : option error) : bool :=
  match err with Some _ => true | None => false end.

(** What index visitors that only write lines leave on standard output:
    for each link of an album in turn the lines of its visit, then, in a
    recursive walk, the lines of the gallery below it. *)
Fixpoint emitted (emit : string -> string -> Z -> list string)
    (recurse : bool) (base : string) (depth : Z) (g : Gallery)
  : list string :=
  match g with
  | File _ => []
  | Album children =>
      flat_map
        (fun c =>
           emit base (fst c) depth
           ++ (if recurse
               then emitted emit recurse (path.Join [base; fst c])
                            (int_add depth 1) (snd c)
               else []))%list
        children
  end.

(** The lines of [ls] and of [diff]. *)
Definition ls_line (base node : string) (depth : Z) : list string :=
  [strings_Repeat tab depth ++ node ++ newline].

Definition diff_line (present : string -> bool) (localPath : string)
    (base node : string) (depth : Z) : list string :=
  let location := path.Join [localPath; base; node] in
  if present location then [] else [location ++ newline].

(** Does the walk of version 1.2.2 return an error from this page: only
    a file whose leaf visitor fails does. *)
Definition failing122 (failsL : string -> bool) (base : string) (g : Gallery)
  : bool :=
  match g with
  | File _ => failsL base
  | Album _ => false
  end.

Section LinkLoops.

Variables (visit : string -> Gallery -> list Event)
          (stops : string -> Gallery -> bool)
          (failsI : string -> string -> bool) (base : string) (depth : Z).

(** The calls of the loop over the links of an album: the index visit of
    a link, then, when that did not fail, the calls [visit] of the walk
    below it, and the links after it unless that walk [stops] the loop. *)
Fixpoint linkVisits (cs : list (string * Gallery)) : list Event :=
  match cs with
  | [] => []
  | c :: rest =>
      let next := path.Join [base; fst c] in
      EvIndex base (fst c) depth
      :: (if failsI base (fst c) then []
          else visit next (snd c)
               ++ (if stops next (snd c) then [] else linkVisits rest))%list
  end.

(** Does the loop stop before its end. *)
Fixpoint linkStops (cs : list (string * Gallery)) : bool :=
  match cs with
  | [] => false
  | c :: rest =>
      failsI base (fst c)
      || stops (path.Join [base; fst c]) (snd c)
      || linkStops rest
  end.

End LinkLoops.

(** The calls of a recursive walk of version 1.2.2 when visitors fail:
    the loop over the links of an album stops after an index visit that
    fails and after a file whose leaf visit fails. *)
Fixpoint visited122 (failsI : string -> string -> bool)
    (failsL : string -> bool) (address base : string) (depth : Z)
    (g : Gallery) : list Event :=
  EvGet (address ++ path.Join ["/var/albums"; base])
  :: match g with
     | File ct => [EvLeaf base ct]
     | Album children =>
         linkVisits
           (fun next g' =>
              visited122 failsI failsL address next (int_add depth 1) g')
           (failing122 failsL) failsI base depth children
     end.

(** Does the walk of version 1.2.1 stop in this gallery: an index visit
    fails in it before the walk is through. *)
Fixpoint aborts121 (failsI : string -> string -> bool) (base : string)
    (g : Gallery) : bool :=
  match g with
  | File _ => false
  | Album children => linkStops (aborts121 failsI) failsI base children
  end.

(** The calls of a recursive walk of version 1.2.1: a failing index
    visit ends the whole walk, a failing leaf visit ends nothing. *)
Fixpoint visited121 (failsI : string -> string -> bool)
    (address base : string) (depth : Z) (g : Gallery) : list Event :=
  EvGet (address ++ path.Join ["/var/albums"; base])
  :: match g with
     | File ct => [EvLeaf base ct]
     | Album children =>
         linkVisits
           (fun next g' =>
              visited121 failsI address next (int_add depth 1) g')
           (aborts121 failsI) failsI base depth children
     end.

(** Is an error returned. *)
Definition failed (r : option error) : bool :=
  match r with Some _ => true | None => false end.

(** What the walk of version 1.2.1 returns on a served gallery. *)
Definition result121 (failsI : string -> string -> bool)
    (failsL : string -> bool) (base : string) (g : Gallery) : option error :=
  match g with
  | File _ =>
      if failsL base then Some (leafError (foreignError "leaf visitor failed"))
      else None
  | Album _ =>
      if aborts121 failsI base g
      then Some (errorString "Index error: index visitor failed")
      else None
  end.

(** Attempts of a scripted HTTP client: the state holds the results of
    the attempts to come and what was logged and slept so far. *)
Inductive RetryEvent : Type :=
| Logged (line : string)
| Slept (nanoseconds : Z).

Definition scripted_Get (_ : string)
    (st : list GetResult * list RetryEvent)
  : GetResult * (list GetResult * list RetryEvent) :=
  match fst st with
  | [] => (GetErr None (foreignError "no more attempts"), st)
  | r :: later => (r, (later, snd st))
  end.

Definition scripted_log (line : string)
    (st : list GetResult * list RetryEvent) :=
  (fst st, (snd st ++ [Logged line])%list).

Definition scripted_Sleep (t : Z) (st : list GetResult * list RetryEvent) :=
  (fst st, (snd st ++ [Slept t])%list).

(** The value of the last attribute with the key [href], if any. *)
Definition lastHref (attrs : list html.Attribute) : option string :=
  option_map html.Val
    (find (fun a => html.Key a =? "href") (rev attrs)).

(** A gallery whose second link is not served: no page at
    [/var/albums/B]. *)
Definition broken : Site :=
  serve
    [ htmlPage "http://g/var/albums" (listing ["A"; "B"; "C"]);
      filePage "http://g/var/albums/A" "image/jpeg";
      filePage "http://g/var/albums/C" "image/jpeg" ].

(** The failed attempts of a script, and what the retries of [get] leave
    on the log and in sleeps for them. *)
Definition failures (errs : list (option Response * error)) : list GetResult :=
  map (fun f => GetErr (fst f) (snd f)) errs.

Definition retryTrace (show : Z -> string)
    (errs : list (option Response * error)) (policy : list Z)
  : list RetryEvent :=
  flat_map
    (fun ft =>
       [Logged (Error (snd (fst ft)) ++ " waiting " ++ show (snd ft)
                  ++ " to retry...");
        Slept (snd ft)])
    (combine errs policy).

(** What is seen of a walk in the recording world when its log is left
    aside: what it returned and the calls it made. *)
Definition observed (r : option (outcome (option error) * list Event))
  : option (outcome (option error) * list Event) :=
  option_map (fun x => (fst x, calls (snd x))) r.




(** The line the walk of an album in version 1.2.1 logs after the walk
    of a link: the leaf error of a file whose leaf visit failed. *)
Definition leafLog (failsL : string -> bool) (next : string) (g : Gallery)
  : list Event :=
  match g with
  | File _ =>
      if failsL next then [EvLog "Leaf error: leaf visitor failed"] else []
  | Album _ => []
  end.

(** All that a recursive walk of version 1.2.1 does, log lines with the
    calls: after the walk of a link, the line of its leaf error if it
    gave one. *)
Fixpoint trace121 (failsI : string -> string -> bool)
    (failsL : string -> bool) (address base : string) (depth : Z)
    (g : Gallery) : list Event :=
  EvGet (address ++ path.Join ["/var/albums"; base])
  :: match g with
     | File ct => [EvLeaf base ct]
     | Album children =>
         linkVisits
           (fun next g' =>
              trace121 failsI failsL address next (int_add depth 1) g'
              ++ leafLog failsL next g')%list
           (aborts121 failsI) failsI base depth children
     end.

(** A download that went through in the leaf visitor of [fetch]: the
    content type is one of the two image types, [os.Stat] reported the
    local file as not existing, and [os.MkdirAll], [os.Create] and the
    copy of the body all returned a nil error. *)
Definition downloaded {W : Type}
    (os_Stat : string -> W -> option error * W)
    (os_IsNotExist : option error -> bool)
    (os_MkdirAll os_Create : string -> W -> option error * W)
    (io_Copy : string -> Response -> W -> Z * option error * W)
    (localPath : string) (resp : Response) (node ct : string) (w : W) : bool :=
  ((ct =? "image/png") || (ct =? "image/jpeg"))
  && (let folder := path.Join [localPath; path.Dir node] in
      let localFile := path.Join [folder; path.Base node] in
      let (err, w1) := os_Stat localFile w in
      os_IsNotExist err
      && (let (e2, w2) := os_MkdirAll folder w1 in
          negb (failed e2)
          && (let (e3, w3) := os_Create localFile w2 in
              negb (failed e3)
              && (let '(_, e4, _) := io_Copy localFile resp w3 in
                  negb (failed e4))))).

(** * Properties *)

(** ** Strings *)

(** The cases of the tests of package [path]. *)
Example Clean_table :
  map path.Clean
    [""; "abc"; "a/b/c"; "."; ".."; "../../abc"; "/"; "abc/def/"; "../";
     "/abc/"; "abc//def//ghi"; "//abc//"; "/./abc/def"; "abc/.";
     "abc/def/ghi/../jkl"; "abc/def/../.."; "/abc/def/../..";
     "abc/def/../../.."; "/abc/def/../../..";
     "abc/def/../../../ghi/jkl/../../../mno"; "abc/../../././../def"]
  = ["."; "abc"; "a/b/c"; "."; ".."; "../../abc"; "/"; "abc/def"; "..";
     "/abc"; "abc/def/ghi"; "/abc"; "/abc/def"; "abc";
     "abc/def/jkl"; "."; "/";
     ".."; "/";
     "../../mno"; "../../def"].
Proof. vm_compute. reflexivity. Qed.

Example Join_table :
  map path.Join
    [["a"; "b"]; ["a"; ""]; [""; "b"]; [""; ""]; ["/"; "a"]; ["a/"; "b"];
     ["a"; "/b"]; ["/var/albums"; ""]; ["/var/albums"; "/"];
     ["/var/albums"; ".."]; [""; "../"]]
  = ["a/b"; "a"; "b"; ""; "/a"; "a/b";
     "a/b"; "/var/albums"; "/var/albums";
     "/var"; ".."].
Proof. vm_compute. reflexivity. Qed.

Example Dir_Base_table :
  map (fun p => (path.Dir p, path.Base p))
    [""; "/"; "abc"; "abc/def"; "a/b/c.x"; "/abc/"; "abc///"; "/a/b"]
  = [(".", "."); ("/", "/"); (".", "abc"); ("abc", "def");
     ("a/b", "c.x"); ("/abc", "abc"); ("abc", "abc"); ("/a", "b")].
Proof. vm_compute. reflexivity. Qed.

Lemma HasPrefix_spec (s p : string) :
  strings.HasPrefix s p = true <-> exists b, s = p ++ b.
Proof.
  revert s; induction p as [|a p IH]; intros s; simpl.
  - split; [intros _; now exists s | reflexivity].
  - destruct s as [|b r].
    + split; [discriminate | intros [x Hx]; discriminate].
    + rewrite andb_true_iff, Ascii.eqb_eq, IH. split.
      * intros [-> [x ->]]. now exists x.
      * intros [x Hx]. injection Hx as -> ->. split; [reflexivity | now exists x].
Qed.

(** [strings.Contains s substr] holds exactly when [substr] occurs in [s]. *)
Lemma Contains_spec (s substr : string) :
  strings.Contains s substr = true <-> exists a b, s = a ++ substr ++ b.
Proof.
  split.
  - induction s as [|c r IH]; simpl; rewrite orb_true_iff.
    + intros [Hp | Hf]; [|discriminate].
      apply HasPrefix_spec in Hp as [b Hb]. now exists "", b.
    + intros [Hp | Hc].
      * apply HasPrefix_spec in Hp as [b Hb]. now exists "", b.
      * destruct (IH Hc) as (a & b & ->). now exists (String c a), b.
  - intros (a & b & ->). induction a as [|c a IH].
    + destruct (substr ++ b) eqn:E; simpl; rewrite orb_true_iff; left;
        apply HasPrefix_spec; exists b; now rewrite E.
    + simpl. rewrite IH. apply orb_true_r.
Qed.

Lemma Contains_empty (s : string) : strings.Contains s "" = true.
Proof. destruct s; reflexivity. Qed.

Lemma append_assoc (a b c : string) : (a ++ b) ++ c = a ++ b ++ c.
Proof. induction a as [|x a IH]; simpl; [reflexivity | now rewrite IH]. Qed.

(** What occurs in a prefix of [s] occurs in [s]. *)
Lemma Contains_prefix (s p sub : string) :
  strings.HasPrefix s p = true -> strings.Contains p sub = true ->
  strings.Contains s sub = true.
Proof.
  intros Hp Hc. apply HasPrefix_spec in Hp as [t ->].
  apply Contains_spec in Hc as (a & b & ->). apply Contains_spec.
  exists a, (b ++ t). now rewrite !append_assoc.
Qed.

Lemma Split_nonempty (s : string) (sep : ascii) : strings.Split s sep <> [].
Proof.
  destruct s as [|c r]; simpl; [discriminate|].
  destruct (Ascii.eqb c sep); [discriminate|].
  destruct (strings.Split r sep); discriminate.
Qed.

(** ** Link extraction *)

Lemma getHref_fold (attrs : list html.Attribute) (r : bool * string) :
  let f := fun (r : bool * string) a =>
             if html.Key a =? "href" then (true, html.Val a) else r in
  if existsb (fun a => html.Key a =? "href") attrs
  then fst (fold_left f attrs r) = true
  else fold_left f attrs r = r.
Proof.
  revert r; induction attrs as [|a attrs IH]; intros r; simpl; [reflexivity|].
  destruct (html.Key a =? "href"); simpl.
  - specialize (IH (true, html.Val a)). simpl in IH.
    destruct (existsb _ attrs); [exact IH | now rewrite IH].
  - apply IH.
Qed.

Lemma getHref_ok (t : html.Token) : fst (getHref t) = carriesHref t.
Proof.
  unfold getHref, carriesHref.
  pose proof (getHref_fold (html.Attr t) (false, "")) as Hf. simpl in Hf.
  destruct (existsb _ (html.Attr t)); [exact Hf | now rewrite Hf].
Qed.

Lemma getHref_missing (t : html.Token) :
  carriesHref t = false -> getHref t = (false, "").
Proof.
  unfold getHref, carriesHref. intros Hc.
  pose proof (getHref_fold (html.Attr t) (false, "")) as Hf. simpl in Hf.
  now rewrite Hc in Hf.
Qed.

(** One turn of the loop on an anchor that carries an href. *)
Lemma getNodes_loop_anchor rp t rest fin nodes :
  isAnchor t = true -> carriesHref t = true ->
  getNodes_loop rp (t :: rest) fin nodes =
  getNodes_loop rp rest fin (nodes ++ kept rp [t])%list.
Proof.
  intros Ha Hc. unfold kept, anchors, href. simpl. fold (isAnchor t).
  rewrite Ha. simpl. rewrite <- getHref_ok in Hc.
  destruct (getHref t) as [ok node]; simpl in *; subst ok.
  destruct (strings.Contains rp node); simpl; [now rewrite app_nil_r | reflexivity].
Qed.

Lemma getNodes_loop_other rp t rest fin nodes :
  isAnchor t = false ->
  getNodes_loop rp (t :: rest) fin nodes = getNodes_loop rp rest fin nodes.
Proof. intros Ha. simpl. fold (isAnchor t). now rewrite Ha. Qed.

Lemma kept_cons rp t toks :
  kept rp (t :: toks) = (kept rp [t] ++ kept rp toks)%list.
Proof.
  unfold kept, anchors. simpl. destruct (isAnchor t); simpl; [|reflexivity].
  destruct (strings.Contains rp (href t)); reflexivity.
Qed.

(** The loop over a stretch of the document whose anchors all carry an
    href: it keeps the links of the stretch and goes on. *)
Lemma getNodes_loop_app rp pre post fin nodes :
  forallb carriesHref (anchors pre) = true ->
  getNodes_loop rp (pre ++ post) fin nodes =
  getNodes_loop rp post fin (nodes ++ kept rp pre)%list.
Proof.
  revert nodes; induction pre as [|t pre IH]; intros nodes Hall.
  - simpl. unfold kept; simpl. now rewrite app_nil_r.
  - rewrite <- app_comm_cons, kept_cons.
    unfold anchors in Hall. simpl in Hall.
    destruct (isAnchor t) eqn:Ha.
    + simpl in Hall. apply andb_true_iff in Hall as [Hc Hall].
      rewrite getNodes_loop_anchor by assumption.
      rewrite IH by exact Hall. now rewrite app_assoc.
    + rewrite getNodes_loop_other by exact Ha.
      rewrite IH by exact Hall.
      unfold kept at 2, anchors; simpl. rewrite Ha. simpl. reflexivity.
Qed.

(** Every link [getNodes] yields does not occur in the remote path. *)
Lemma getNodes_loop_excluded rp toks fin nodes :
  Forall (fun h => strings.Contains rp h = false) nodes ->
  Forall (fun h => strings.Contains rp h = false)
         (fst (getNodes_loop rp toks fin nodes)).
Proof.
  revert nodes; induction toks as [|t rest IH]; intros nodes Hn; simpl.
  - exact Hn.
  - destruct (html.isStartTag (html.Type_ t) && (html.Data t =? "a")).
    + destruct (getHref t) as [ok node].
      assert (Hn' : Forall (fun h => strings.Contains rp h = false)
                      (if negb (strings.Contains rp node)
                       then (nodes ++ [node])%list else nodes)).
      { destruct (strings.Contains rp node) eqn:E; simpl; [exact Hn|].
        apply Forall_app. split; [exact Hn | now constructor]. }
      destruct ok; [now apply IH | exact Hn'].
    + now apply IH.
Qed.

Lemma getNodes_excluded rp b h :
  In h (fst (getNodes rp b)) -> strings.Contains rp h = false.
Proof.
  unfold getNodes.
  pose proof (getNodes_loop_excluded rp (tokens b) (ending b) [] (Forall_nil _))
    as Hall.
  destruct (getNodes_loop rp (tokens b) (ending b) []) as [nodes err].
  simpl in *. rewrite Forall_forall in Hall. apply Hall.
Qed.

(** C5.  When every anchor of the body carries an href, [getNodes] yields
    the hrefs that do not occur in the current remote path, in the order
    of the anchors in the document (so with one href occurring in the
    path, all the others in their order); the error is nil when the
    document ends with [io.EOF]. *)
Theorem getNodes_yields_unexcluded_hrefs (remotePath : string) (b : Body) :
  forallb carriesHref (anchors (tokens b)) = true ->
  getNodes remotePath b =
  (filter (fun h => negb (strings.Contains remotePath h))
          (map href (anchors (tokens b))),
   if is_EOF (ending b) then None else Some (ending b)).
Proof.
  intros Hall. unfold getNodes.
  rewrite <- (app_nil_r (tokens b)) at 1.
  rewrite getNodes_loop_app by exact Hall. reflexivity.
Qed.

(** The listing of the album [/var/albums/2016]: the link [2016] back to
    the album itself is left out, the others keep their order. *)
Lemma getNodes_yields_unexcluded_hrefs_witness :
  forallb carriesHref
    (anchors (tokens (listing ["beach"; "2016"; "city"; "zoo"]))) = true /\
  getNodes "/var/albums/2016" (listing ["beach"; "2016"; "city"; "zoo"])
  = (["beach"; "city"; "zoo"], None).
Proof.
  split; [reflexivity|].
  exact (getNodes_yields_unexcluded_hrefs "/var/albums/2016"
           (listing ["beach"; "2016"; "city"; "zoo"]) eq_refl).
Defined.

(** An anchor whose href is the empty string changes nothing in the loop,
    wherever it stands. *)
Lemma getNodes_loop_empty_href rp pre a post fin nodes :
  isAnchor a = true -> getHref a = (true, "") ->
  getNodes_loop rp (pre ++ a :: post) fin nodes =
  getNodes_loop rp (pre ++ post) fin nodes.
Proof.
  intros Ha Hh. revert nodes; induction pre as [|t pre IH]; intros nodes.
  - simpl. fold (isAnchor a). rewrite Ha, Hh, Contains_empty. reflexivity.
  - simpl. destruct (html.isStartTag (html.Type_ t) && (html.Data t =? "a")).
    + destruct (getHref t) as [ok node]. destruct ok; [apply IH | reflexivity].
    + apply IH.
Qed.

(** C9.  An anchor whose href attribute is present and empty is dropped
    without a trace: for every remote path, [getNodes] gives for the
    document with the anchor what it gives for the document without it,
    links and error alike. *)
Theorem getNodes_drops_empty_href
    (remotePath : string) (pre post : list html.Token) (a : html.Token)
    (fin : error) :
  isAnchor a = true -> getHref a = (true, "") ->
  getNodes remotePath {| tokens := pre ++ a :: post; ending := fin |} =
  getNodes remotePath {| tokens := pre ++ post; ending := fin |}.
Proof.
  intros Ha Hh. unfold getNodes; simpl.
  now rewrite getNodes_loop_empty_href.
Qed.

Lemma getNodes_drops_empty_href_witness :
  (isAnchor (anchor "") = true /\ getHref (anchor "") = (true, "")) /\
  getNodes "/var/albums"
    {| tokens := [anchor "x"] ++ anchor "" :: [anchor "y"];
       ending := io_EOF |}
  = (["x"; "y"], None).
Proof.
  split; [split; reflexivity|].
  exact (getNodes_drops_empty_href "/var/albums" [anchor "x"] [anchor "y"]
           (anchor "") io_EOF eq_refl eq_refl).
Defined.

(** An anchor without an href, after anchors that all carry one, stops
    the extraction with an error that is not a leaf error. *)
Lemma getNodes_missing_href rp pre a post fin :
  forallb carriesHref (anchors pre) = true ->
  isAnchor a = true -> carriesHref a = false ->
  getNodes rp {| tokens := pre ++ a :: post; ending := fin |} =
  (kept rp pre, Some (errorString ("No url for " ++ html.String_ a))).
Proof.
  intros Hall Ha Hc. unfold getNodes; simpl.
  rewrite getNodes_loop_app by exact Hall. simpl.
  fold (isAnchor a). rewrite Ha, (getHref_missing a Hc), Contains_empty.
  reflexivity.
Qed.

(** ** The composed server path *)

Lemma cleanStep_grows (l out : list string) :
  ~ In ".." l ->
  exists more, fold_left (path.cleanStep true) l out = (more ++ out)%list.
Proof.
  revert out; induction l as [|e l IH]; intros out Hno; simpl.
  - now exists [].
  - assert (He : (e =? "..") = false).
    { apply String.eqb_neq. intros ->. apply Hno. now left. }
    assert (Hl : ~ In ".." l) by (intros Hin; apply Hno; now right).
    unfold path.cleanStep at 2. rewrite He.
    destruct ((e =? "") || (e =? ".")).
    + apply IH, Hl.
    + destruct (IH (e :: out) Hl) as [more Hm].
      exists (more ++ [e])%list. now rewrite Hm, <- app_assoc.
Qed.

(** A base path without a [..] element is composed below [/var/albums]. *)
Lemma remotePath_below_albums (base : string) :
  ~ In ".." (strings.Split base "/"%char) ->
  strings.HasPrefix (path.Join ["/var/albums"; base]) "/var/albums" = true.
Proof.
  intros Hno. apply HasPrefix_spec.
  change (path.Join ["/var/albums"; base])
    with (path.Clean ("/var/albums/" ++ base)).
  unfold path.Clean.
  change ("/var/albums/" ++ base =? "") with false.
  change (strings.HasPrefix ("/var/albums/" ++ base) "/") with true.
  cbv iota.
  assert (Hs : strings.Split ("/var/albums/" ++ base) "/"%char
               = "" :: "var" :: "albums" :: strings.Split base "/"%char).
  { simpl. destruct (strings.Split base "/"%char) eqn:E; [|reflexivity].
    now apply Split_nonempty in E. }
  rewrite Hs. simpl fold_left.
  change (path.cleanStep true
            (path.cleanStep true (path.cleanStep true [] "") "var") "albums")
    with ["albums"; "var"].
  destruct (cleanStep_grows (strings.Split base "/"%char) ["albums"; "var"] Hno)
    as [more ->].
  rewrite rev_app_distr. simpl rev. unfold strings.Join.
  simpl app. cbn [String.concat].
  destruct (rev more) as [|x xs].
  - exists "". reflexivity.
  - simpl. eexists. reflexivity.
Qed.

Lemma hasDotDot_false (base : string) :
  hasDotDot base = false -> ~ In ".." (strings.Split base "/"%char).
Proof.
  unfold hasDotDot. intros Hf Hin.
  assert (Ht : existsb (fun e => e =? "..") (strings.Split base "/"%char) = true).
  { apply existsb_exists. exists "..". split; [exact Hin | reflexivity]. }
  congruence.
Qed.

(** For a base path none of whose elements is [..], a link that occurs
    in [/var/albums] is never among the links [getNodes] yields on the
    composed path. *)
Lemma getNodes_excludes_prefix_links (base href : string) (b : Body) :
  hasDotDot base = false ->
  strings.Contains "/var/albums" href = true ->
  ~ In href (fst (getNodes (path.Join ["/var/albums"; base]) b)).
Proof.
  intros Hno Hsub Hin. apply hasDotDot_false in Hno.
  apply getNodes_excluded in Hin.
  rewrite (Contains_prefix _ "/var/albums" href) in Hin;
    [discriminate | now apply remotePath_below_albums | exact Hsub].
Qed.

(** ** The walk *)

Section WalkFacts.

Context {W : Type} {Wd : World W}.
Variables (address base : string) (recurse : bool) (depth : Z)
          (verbose : bool) (onIndex : indexAction W) (onLeaf : leafAction W).

(** One level of [walkPath]. *)
Lemma walkPath_S fuel w :
  walkPath (S fuel) address base recurse depth verbose onIndex onLeaf w =
  let remotePath := path.Join ["/var/albums"; base] in
  match get (address ++ remotePath) w with
  | (GetOk resp, w1) =>
      let ct := getContentType resp in
      if ct =? "text/html" then
        let (nodes, err) := getNodes remotePath (body resp) in
        match err with
        | Some _ => done verbose resp ct w1
        | None =>
            match rangeNodes
                    (fun next d =>
                       walkPath fuel address next recurse d verbose
                                onIndex onLeaf)
                    base recurse depth onIndex nodes w1 with
            | None => None
            | Some (Panicked, w2) => Some (Panicked, w2)
            | Some (Returned _, w2) => done verbose resp ct w2
            end
        end
      else
        let (err, w2) := onLeaf resp base ct w1 in
        match err with
        | Some e =>
            Some (Returned (Some (wrapError resp (leafError e))), w2)
        | None => done verbose resp ct w2
        end
  | (GetErr None _, w1) => Some (Panicked, w1)
  | (GetErr (Some resp) err, w1) =>
      Some (Returned (Some (wrapError resp err)), w1)
  end.
Proof. reflexivity. Qed.

(** No error [walkPath] returns is a [*leafError]: a leaf error is
    formatted into a new error before it is returned. *)
Lemma walkPath_never_leafError fuel w e w' :
  walkPath fuel address base recurse depth verbose onIndex onLeaf w
  = Some (Returned (Some e), w') ->
  is_leafError e = false.
Proof.
  destruct fuel as [|fuel]; [discriminate|].
  rewrite walkPath_S. cbv zeta.
  destruct (get _ w) as [[resp | [resp|] err] w1].
  - destruct (getContentType resp =? "text/html").
    + destruct (getNodes _ (body resp)) as [nodes [err|]];
        [unfold done; intros [=]|].
      destruct (rangeNodes _ _ _ _ _ _ _) as [[[r|] w2]|];
        unfold done; intros [=].
    + destruct (onLeaf _ _ _ _) as [[err|] w2]; unfold done; intros [=].
      now subst.
  - intros [=]; now subst.
  - intros [=].
Qed.

(** [handleWalkError] logs a [*leafError] and turns it into nil. *)
Lemma handleWalkError_leafError (inner : error) (w : W) :
  handleWalkError (Some (leafError inner)) w
  = (None, log_Printf ("Leaf error: " ++ Error inner) w).
Proof. reflexivity. Qed.

(** The walk of a page that is no index and whose leaf visitor fails. *)
Lemma walkPath_leaf_failure fuel w resp w1 e w2 :
  get (address ++ path.Join ["/var/albums"; base]) w = (GetOk resp, w1) ->
  (getContentType resp =? "text/html") = false ->
  onLeaf resp base (getContentType resp) w1 = (Some e, w2) ->
  walkPath (S fuel) address base recurse depth verbose onIndex onLeaf w
  = Some (Returned (Some (wrapError resp (leafError e))), w2).
Proof.
  intros Hg Hct Hl. rewrite walkPath_S. cbv zeta.
  now rewrite Hg, Hct, Hl.
Qed.

(** So [handleWalkError] contains nothing [walkPath] returns. *)
Lemma handleWalkError_of_walkPath fuel w e w' :
  walkPath fuel address base recurse depth verbose onIndex onLeaf w
  = Some (Returned (Some e), w') ->
  handleWalkError (Some e) w' = (Some e, w').
Proof.
  intros Hw. apply walkPath_never_leafError in Hw.
  unfold handleWalkError. now rewrite Hw.
Qed.

(** The walk of an index page returns no error, whatever happened in
    its loop. *)
Lemma walkPath_index_page_no_error fuel w resp w1 e w' :
  get (address ++ path.Join ["/var/albums"; base]) w = (GetOk resp, w1) ->
  getContentType resp = "text/html" ->
  walkPath fuel address base recurse depth verbose onIndex onLeaf w
  <> Some (Returned (Some e), w').
Proof.
  intros Hg Hct. destruct fuel as [|fuel]; [discriminate|].
  rewrite walkPath_S. cbv zeta. rewrite Hg, Hct.
  change ("text/html" =? "text/html") with true. cbv iota.
  destruct (getNodes _ (body resp)) as [nodes [err|]];
    [unfold done; intros [=]|].
  destruct (rangeNodes _ _ _ _ _ _ _) as [[[r|] w2]|];
    unfold done; intros [=].
Qed.

(** A failed [get] that still has a response returns its error with the
    URL and the status. *)
Lemma walkPath_get_failure_with_response fuel w resp err w1 :
  get (address ++ path.Join ["/var/albums"; base]) w
  = (GetErr (Some resp) err, w1) ->
  walkPath (S fuel) address base recurse depth verbose onIndex onLeaf w
  = Some (Returned (Some (wrapError resp err)), w1).
Proof. intros Hg. rewrite walkPath_S. cbv zeta. now rewrite Hg. Qed.

(** A failed [get] without a response ends in a panic. *)
Lemma walkPath_get_failure_panics fuel w err w1 :
  get (address ++ path.Join ["/var/albums"; base]) w = (GetErr None err, w1) ->
  walkPath (S fuel) address base recurse depth verbose onIndex onLeaf w
  = Some (Panicked, w1).
Proof. intros Hg. rewrite walkPath_S. cbv zeta. now rewrite Hg. Qed.

End WalkFacts.

(** An error of the walk of a link ends the loop over the links: the
    links after it are left alone. *)
Lemma rangeNodes_stops_on_error {W : Type} {Wd : World W}
    address base depth verbose (onIndex : indexAction W) (onLeaf : leafAction W)
    fuel node rest w w1 e w2 :
  onIndex base node depth w = (None, w1) ->
  walkPath fuel address (path.Join [base; node]) true (int_add depth 1)
           verbose onIndex onLeaf w1
  = Some (Returned (Some e), w2) ->
  rangeNodes
    (fun next d => walkPath fuel address next true d verbose onIndex onLeaf)
    base true depth onIndex (node :: rest) w
  = Some (Returned (Some e), w2).
Proof.
  intros Hi Hw. cbn [rangeNodes]. rewrite Hi, Hw.
  apply walkPath_never_leafError in Hw.
  unfold handleWalkError. now rewrite Hw.
Qed.

(** C1.  In the gallery root -> {A, B}, A -> {A1, A2}, the leaf visitor
    fails on A1.  The walk of A1 returns the failure formatted as a new
    error, [handleWalkError] does not see a leaf error in it, and the
    loop over the links of A stops: nothing is logged, A2 is not visited.
    The walk goes on with B and returns nil. *)
Theorem leaf_failure_ends_the_page :
  walkPath (Wd := Recorded gallery) 3 "http://g" "" true 0 false
           (recIndex never2) (recLeaf (String.eqb "A/A1")) []
  = Some (Returned None,
          [EvGet "http://g/var/albums"; EvIndex "" "A" 0;
           EvGet "http://g/var/albums/A"; EvIndex "A" "A1" 1;
           EvGet "http://g/var/albums/A/A1"; EvLeaf "A/A1" "image/jpeg";
           EvIndex "" "B" 0;
           EvGet "http://g/var/albums/B"; EvLeaf "B" "image/jpeg"]).
Proof. vm_compute. reflexivity. Qed.

(** C2.  In the same gallery the index visitor fails on A2.  The loop
    over the links of A stops, but the walk of A returns nil: the walk
    goes on with B and returns nil, not the error of the visitor. *)
Theorem index_failure_is_lost :
  walkPath (Wd := Recorded gallery) 3 "http://g" "" true 0 false
           (recIndex (fun _ node => node =? "A2")) (recLeaf never1) []
  = Some (Returned None,
          [EvGet "http://g/var/albums"; EvIndex "" "A" 0;
           EvGet "http://g/var/albums/A"; EvIndex "A" "A1" 1;
           EvGet "http://g/var/albums/A/A1"; EvLeaf "A/A1" "image/jpeg";
           EvIndex "A" "A2" 1;
           EvIndex "" "B" 0;
           EvGet "http://g/var/albums/B"; EvLeaf "B" "image/jpeg"]).
Proof. vm_compute. reflexivity. Qed.

(** C4.  No page is served at [/var/albums/nowhere]: [get] gives an
    error and no response, and the walk panics on the nil response
    instead of returning an error. *)
Theorem get_failure_panics :
  walkPath (Wd := Recorded gallery) 1 "http://g" "nowhere" false 0 false
           (recIndex never2) (recLeaf never1) []
  = Some (Panicked, [EvGet "http://g/var/albums/nowhere"]).
Proof. vm_compute. reflexivity. Qed.

(** C7.  [getNodes] gives the error of the anchor without an href, and
    the walk of that page returns nil: the error stays in the [err] of
    the [text/html] case. *)
Theorem missing_href_is_lost :
  getNodes "/var/albums"
    {| tokens := [anchor "A"; tag html.StartTagToken "a"; anchor "B"];
       ending := io_EOF |}
  = (["A"], Some (errorString "No url for <a>")) /\
  walkPath (Wd := Recorded malformed) 2 "http://g" "" true 0 false
           (recIndex never2) (recLeaf never1) []
  = Some (Returned None, [EvGet "http://g/var/albums"]).
Proof. split; vm_compute; reflexivity. Qed.

(** ** An unrecognized content type at the top of [fetch] *)

Section FetchFacts.

Context {W : Type} {Wd : World W}.
Variable os_Stat : string -> W -> option error * W.
Variable os_IsNotExist : option error -> bool.
Variable os_MkdirAll : string -> W -> option error * W.
Variable os_Create : string -> W -> option error * W.
Variable io_Copy : string -> Response -> W -> Z * option error * W.

Let onLeaf := fetch_onLeaf os_Stat os_IsNotExist os_MkdirAll os_Create io_Copy.
Let fetch' := fetch os_Stat os_IsNotExist os_MkdirAll os_Create io_Copy.

Lemma FetchWorld_get (url : string) (s : FetchState) :
  get url s = let (r, w) := get url (world s) in (r, inWorld s w).
Proof. reflexivity. Qed.

(** C8.  [fetch] without recursion on a path whose response is neither
    [text/html] nor [image/jpeg] nor [image/png]: the walk returns to
    the command the error of the leaf visitor, as a leaf error
    formatted with the URL and the status, and the command ends on it:
    [URL status: Leaf error: Unknown content type ct:path]. *)
Theorem fetch_unknown_content_type_surfaces
    (fuel : nat) (ctx : cliContext) (w w1 : W) (resp : Response) :
  let address := GlobalString_url ctx in
  let remotePath := nth 0 (Args ctx) "/" in
  let verbose := Bool_verbose ctx in
  let ct := getContentType resp in
  let err :=
    wrapError resp
      (leafError
         (errorString ("Unknown content type " ++ ct ++ ":" ++ remotePath))) in
  (address =? "") = false ->
  Bool_recurse ctx = false ->
  get (address ++ path.Join ["/var/albums"; remotePath]) w = (GetOk resp, w1) ->
  (ct =? "text/html") = false ->
  (ct =? "image/jpeg") = false ->
  (ct =? "image/png") = false ->
  walkPath (S fuel) address remotePath false 0 verbose
           (fetch_onIndex verbose) (onLeaf (nth 1 (Args ctx) ".") verbose)
           {| count := 0; world := w |}
  = Some (Returned (Some err), {| count := 0; world := w1 |})
  /\ fetch' (S fuel) ctx w = Some (Fatal (Error err), w1).
Proof.
  intros address remotePath verbose ct err Haddr Hrec Hget Hhtml Hjpeg Hpng.
  assert (Hwalk :
    walkPath (S fuel) address remotePath false 0 verbose
             (fetch_onIndex verbose) (onLeaf (nth 1 (Args ctx) ".") verbose)
             {| count := 0; world := w |}
    = Some (Returned (Some err), {| count := 0; world := w1 |})).
  { rewrite walkPath_S. cbv zeta. rewrite FetchWorld_get.
    cbn [world]. rewrite Hget. fold ct. rewrite Hhtml.
    unfold onLeaf, fetch_onLeaf. rewrite Hpng, Hjpeg. reflexivity. }
  split; [exact Hwalk|].
  unfold fetch', fetch. fold address. rewrite Haddr, Hrec.
  fold remotePath verbose. unfold onLeaf in Hwalk. rewrite Hwalk.
  reflexivity.
Qed.

End FetchFacts.

Lemma fetch_unknown_content_type_surfaces_witness :
  fetch (Wd := Recorded papers) os_ok os_missing os_ok os_ok io_ok
        1 fetch_notes []
  = Some (Fatal ("http://g/var/albums/notes.pdf 200 OK: "
                 ++ "Leaf error: Unknown content type application/pdf:notes.pdf"),
          [EvGet "http://g/var/albums/notes.pdf"]).
Proof.
  exact (proj2 (fetch_unknown_content_type_surfaces (Wd := Recorded papers)
                  os_ok os_missing os_ok os_ok io_ok 0 fetch_notes []
                  [EvGet "http://g/var/albums/notes.pdf"]
                  (filePage "http://g/var/albums/notes.pdf" "application/pdf")
                  eq_refl eq_refl eq_refl eq_refl eq_refl eq_refl)).
Defined.

(** ** The order of the visits *)

Lemma serves_unfold site address base g :
  serves site address base g =
  match site (address ++ path.Join ["/var/albums"; base]) with
  | GetOk resp =>
      match g with
      | File ct =>
          (getContentType resp =? ct) && negb (ct =? "text/html")
      | Album children =>
          (getContentType resp =? "text/html")
          && match getNodes (path.Join ["/var/albums"; base]) (body resp) with
             | (nodes, None) =>
                 if list_eq_dec string_dec nodes (map fst children)
                 then true else false
             | (_, Some _) => false
             end
          && forallb
               (fun c => serves site address (path.Join [base; fst c]) (snd c))
               children
      end
  | GetErr _ _ => false
  end.
Proof. destruct g; reflexivity. Qed.

Lemma height_positive g : 1 <= height g.
Proof. destruct g; simpl; lia. Qed.

Lemma height_child c children :
  In c children -> S (height (snd c)) <= height (Album children).
Proof.
  simpl. intros Hin. apply le_n_S.
  induction children as [|c' rest IH]; [destruct Hin|].
  simpl. destruct Hin as [-> | Hin]; [lia|]. specialize (IH Hin). lia.
Qed.

Lemma calls_app (a b : list Event) : calls (a ++ b) = (calls a ++ calls b)%list.
Proof. apply filter_app. Qed.

Section DepthFirst.

Variables (site : Site) (address : string) (verbose : bool).

Let walk (fuel : nat) (base : string) (depth : Z) :=
  walkPath (Wd := Recorded site) fuel address base true depth verbose
           (recIndex never2) (recLeaf never1).



End DepthFirst.


Example gallery_fetch_order :
  option_map (fun r => fetched (snd r))
    (walkPath (Wd := Recorded gallery) 3 "http://g" "" true 0 false
              (recIndex never2) (recLeaf never1) [])
  = Some ["http://g/var/albums"; "http://g/var/albums/A";
          "http://g/var/albums/A/A1"; "http://g/var/albums/A/A2";
          "http://g/var/albums/B"].
Proof. vm_compute. reflexivity. Qed.

(** ** Further properties of the extraction *)

(** X1.  No link [getNodes] yields occurs in the remote path, and none
    is the empty string. *)
Theorem getNodes_yields_no_contained_link (remotePath : string) (b : Body) :
  Forall (fun h => strings.Contains remotePath h = false /\ h <> "")
         (fst (getNodes remotePath b)).
Proof.
  apply Forall_forall. intros h Hin.
  apply getNodes_excluded in Hin. split; [exact Hin|].
  intros ->. now rewrite Contains_empty in Hin.
Qed.

Lemma getNodes_loop_anchors rp toks fin nodes :
  getNodes_loop rp toks fin nodes = getNodes_loop rp (anchors toks) fin nodes.
Proof.
  revert nodes; induction toks as [|t rest IH]; intros nodes; [reflexivity|].
  unfold anchors. cbn [filter]. fold (anchors rest).
  destruct (isAnchor t) eqn:Ha.
  - cbn [getNodes_loop]. fold (isAnchor t). rewrite Ha.
    destruct (getHref t) as [ok node]. destruct ok; [apply IH | reflexivity].
  - rewrite getNodes_loop_other by exact Ha. apply IH.
Qed.

(** X2.  [getNodes] reads the start tags named [a] and nothing else: the
    other tokens of the document (text, end tags, self-closing tags,
    other start tags) change neither the links nor the error. *)
Theorem getNodes_reads_anchors_only
    (remotePath : string) (toks : list html.Token) (fin : error) :
  getNodes remotePath {| tokens := toks; ending := fin |} =
  getNodes remotePath {| tokens := anchors toks; ending := fin |}.
Proof.
  unfold getNodes; cbn [tokens ending].
  now rewrite getNodes_loop_anchors.
Qed.

Lemma getNodes_loop_error rp toks fin nodes :
  forallb carriesHref (anchors toks) = false ->
  exists s, snd (getNodes_loop rp toks fin nodes) = errorString s.
Proof.
  revert nodes; induction toks as [|t rest IH]; intros nodes Hall;
    [discriminate|].
  unfold anchors in Hall. cbn [filter] in Hall. fold (anchors rest) in Hall.
  destruct (isAnchor t) eqn:Ha.
  - cbn [getNodes_loop]. fold (isAnchor t). rewrite Ha.
    cbn [forallb] in Hall. rewrite <- getHref_ok in Hall.
    destruct (getHref t) as [ok node]. cbn [fst] in Hall.
    destruct ok; [apply IH; exact Hall | eexists; reflexivity].
  - rewrite getNodes_loop_other by exact Ha. now apply IH.
Qed.

(** X3.  [getNodes] returns a nil error exactly when every anchor of the
    document carries an href and the document ends with [io.EOF],
    whatever the remote path. *)
Theorem getNodes_succeeds_iff (remotePath : string) (b : Body) :
  snd (getNodes remotePath b) = None <->
  forallb carriesHref (anchors (tokens b)) = true /\ ending b = io_EOF.
Proof.
  unfold getNodes. split.
  - destruct (forallb carriesHref (anchors (tokens b))) eqn:Hall.
    + rewrite <- (app_nil_r (tokens b)).
      rewrite getNodes_loop_app by exact Hall. cbn.
      destruct (ending b); cbn; intros H; try discriminate. now split.
    + destruct (getNodes_loop_error remotePath (tokens b) (ending b) [] Hall)
        as [s Hs].
      destruct (getNodes_loop _ _ _ _) as [nodes err]. cbn in *. subst err.
      discriminate.
  - intros [Hall Hend].
    rewrite <- (app_nil_r (tokens b)).
    rewrite getNodes_loop_app by exact Hall. cbn. now rewrite Hend.
Qed.

(** X4.  The first anchor without an href ends the extraction: the error
    names that anchor, the links kept before it are still returned, and
    nothing after it is read. *)
Theorem getNodes_stops_at_missing_href
    (remotePath : string) (pre post : list html.Token) (a : html.Token)
    (fin : error) :
  forallb carriesHref (anchors pre) = true ->
  isAnchor a = true -> carriesHref a = false ->
  getNodes remotePath {| tokens := pre ++ a :: post; ending := fin |} =
  (kept remotePath pre,
   Some (errorString ("No url for " ++ html.String_ a))).
Proof. apply getNodes_missing_href. Qed.

Lemma getNodes_stops_at_missing_href_witness :
  (forallb carriesHref (anchors [anchor "x"; anchor "albums"]) = true /\
   isAnchor (tag html.StartTagToken "a") = true /\
   carriesHref (tag html.StartTagToken "a") = false) /\
  getNodes "/var/albums"
    {| tokens := [anchor "x"; anchor "albums"]
                 ++ tag html.StartTagToken "a" :: [anchor "y"];
       ending := io_EOF |}
  = (["x"], Some (errorString "No url for <a>")).
Proof.
  split; [repeat split; reflexivity|].
  exact (getNodes_stops_at_missing_href "/var/albums"
           [anchor "x"; anchor "albums"] [anchor "y"]
           (tag html.StartTagToken "a") io_EOF eq_refl eq_refl eq_refl).
Defined.

(** X5.  [getHref] gives the value of the last attribute whose key is
    [href], and [(false, "")] when the token has none. *)
Theorem getHref_is_last_href (t : html.Token) :
  getHref t =
  match lastHref (html.Attr t) with
  | Some v => (true, v)
  | None => (false, "")
  end.
Proof.
  unfold getHref, lastHref. generalize (false, "") as r.
  induction (html.Attr t) as [|a attrs IH] using rev_ind; intros r.
  - reflexivity.
  - rewrite fold_left_app, rev_app_distr. cbn.
    destruct (html.Key a =? "href"); [reflexivity | apply IH].
Qed.

Lemma Split_head (s : string) (sep : ascii) :
  exists h t,
    strings.Split s sep = h :: t
    /\ strings.Contains h (String sep "") = false
    /\ (s = h \/ exists rest, s = h ++ String sep rest).
Proof.
  induction s as [|c r (h & t & Hs & Hno & Hr)].
  - exists "", []. repeat split; now left.
  - cbn [strings.Split]. destruct (Ascii.eqb c sep) eqn:Ec.
    + apply Ascii.eqb_eq in Ec. subst c.
      exists "", (strings.Split r sep). repeat split.
      right. now exists r.
    + rewrite Hs. exists (String c h), t. split; [reflexivity|]. split.
      * cbn. rewrite Ascii.eqb_sym, Ec. exact Hno.
      * destruct Hr as [-> | [rest ->]]; [now left | right; now exists rest].
Qed.

(** X6.  [getContentType] gives the header up to its first semicolon:
    the result holds no semicolon, and the header is the result itself
    or the result followed by a semicolon and the parameters. *)
Theorem getContentType_strips_parameters (resp : Response) :
  strings.Contains (getContentType resp) ";" = false /\
  (ContentType resp = getContentType resp \/
   exists params, ContentType resp = getContentType resp ++ ";" ++ params).
Proof.
  unfold getContentType.
  destruct (Split_head (ContentType resp) ";"%char) as (h & t & Hs & Hno & Hr).
  rewrite Hs. cbn [hd]. split; [exact Hno | exact Hr].
Qed.

(** ** Further properties of the walk of version 1.2.2 *)

(** X7.  An error [walkPath] returns is never a [*leafError], so
    [handleWalkError] hands it back unchanged and logs nothing: the
    walk of a parent never contains the error of a child. *)
Theorem walkPath_error_is_never_contained {W : Type} {Wd : World W}
    (address base : string) (recurse : bool) (depth : Z) (verbose : bool)
    (onIndex : indexAction W) (onLeaf : leafAction W)
    (fuel : nat) (w w' : W) (e : error) :
  walkPath fuel address base recurse depth verbose onIndex onLeaf w
  = Some (Returned (Some e), w') ->
  is_leafError e = false /\ handleWalkError (Some e) w' = (Some e, w').
Proof.
  intros Hw. split.
  - exact (walkPath_never_leafError _ _ _ _ _ _ _ _ _ _ _ Hw).
  - exact (handleWalkError_of_walkPath _ _ _ _ _ _ _ _ _ _ _ Hw).
Qed.

Lemma walkPath_error_is_never_contained_witness :
  walkPath (Wd := Recorded gallery) 1 "http://g" "A/A1" true 1 false
           (recIndex never2) (recLeaf (String.eqb "A/A1")) []
  = Some (Returned
            (Some (errorString
                     ("http://g/var/albums/A/A1 200 OK: "
                      ++ "Leaf error: leaf visitor failed"))),
          [EvGet "http://g/var/albums/A/A1"; EvLeaf "A/A1" "image/jpeg"])
  /\ handleWalkError (Wd := Recorded gallery)
       (Some (errorString
                ("http://g/var/albums/A/A1 200 OK: "
                 ++ "Leaf error: leaf visitor failed")))
       [EvGet "http://g/var/albums/A/A1"; EvLeaf "A/A1" "image/jpeg"]
     = (Some (errorString
                ("http://g/var/albums/A/A1 200 OK: "
                 ++ "Leaf error: leaf visitor failed")),
        [EvGet "http://g/var/albums/A/A1"; EvLeaf "A/A1" "image/jpeg"]).
Proof.
  split; [reflexivity|].
  exact (proj2 (walkPath_error_is_never_contained (Wd := Recorded gallery)
                  "http://g" "A/A1" true 1 false
                  (recIndex never2) (recLeaf (String.eqb "A/A1")) 1 [] _ _
                  eq_refl)).
Defined.

(** X8.  The walk of a [text/html] page returns no error, whatever the
    extraction, the index visitor or the walks below it gave: it returns
    nil, or it panics, or its fuel runs out. *)
Theorem walkPath_of_index_page_returns_no_error {W : Type} {Wd : World W}
    (address base : string) (recurse : bool) (depth : Z) (verbose : bool)
    (onIndex : indexAction W) (onLeaf : leafAction W)
    (fuel : nat) (w w1 : W) (resp : Response) :
  get (address ++ path.Join ["/var/albums"; base]) w = (GetOk resp, w1) ->
  getContentType resp = "text/html" ->
  forall e w',
    walkPath fuel address base recurse depth verbose onIndex onLeaf w
    <> Some (Returned (Some e), w').
Proof.
  intros Hg Hct e w'.
  exact (walkPath_index_page_no_error _ _ _ _ _ _ _ _ _ _ _ _ _ Hg Hct).
Qed.

Lemma walkPath_of_index_page_returns_no_error_witness :
  (get (World := Recorded gallery) ("http://g" ++ path.Join ["/var/albums"; "A"]) []
   = (GetOk (htmlPage "http://g/var/albums/A" (listing ["A1"; "A2"])),
      [EvGet "http://g/var/albums/A"])
   /\ getContentType (htmlPage "http://g/var/albums/A" (listing ["A1"; "A2"]))
      = "text/html")
  /\ forall e w',
       walkPath (Wd := Recorded gallery) 2 "http://g" "A" true 1 false
                (recIndex (fun _ _ => true)) (recLeaf never1) []
       <> Some (Returned (Some e), w').
Proof.
  split; [split; reflexivity|].
  exact (walkPath_of_index_page_returns_no_error (Wd := Recorded gallery)
           "http://g" "A" true 1 false
           (recIndex (fun _ _ => true)) (recLeaf never1) 2 [] _ _
           eq_refl eq_refl).
Defined.

Lemma rangeNodes_without_recursion {W : Type} {Wd : World W}
    (walk1 walk2 : string -> Z -> W -> option (outcome (option error) * W))
    base depth (onIndex : indexAction W) nodes w :
  rangeNodes walk1 base false depth onIndex nodes w
  = rangeNodes walk2 base false depth onIndex nodes w.
Proof.
  revert w; induction nodes as [|node rest IH]; intros w; [reflexivity|].
  cbn [rangeNodes]. destruct (onIndex base node depth w) as [[e|] w1];
    [reflexivity | apply IH].
Qed.

Lemma rangeNodes_without_recursion_returns {W : Type} {Wd : World W}
    (walk : string -> Z -> W -> option (outcome (option error) * W))
    base depth (onIndex : indexAction W) nodes w :
  exists r w', rangeNodes walk base false depth onIndex nodes w
               = Some (Returned r, w').
Proof.
  revert w; induction nodes as [|node rest IH]; intros w.
  - now exists None, w.
  - cbn [rangeNodes]. destruct (onIndex base node depth w) as [[e|] w1].
    + now exists (Some e), w1.
    + apply IH.
Qed.

(** X9.  A walk without recursion fetches one page and ends: one level
    of the walk already gives its result, and a greater bound on the
    depth gives the same. *)
Theorem walkPath_without_recursion_ends {W : Type} {Wd : World W}
    (address base : string) (depth : Z) (verbose : bool)
    (onIndex : indexAction W) (onLeaf : leafAction W) (fuel : nat) (w : W) :
  walkPath 1 address base false depth verbose onIndex onLeaf w <> None /\
  walkPath (S fuel) address base false depth verbose onIndex onLeaf w
  = walkPath 1 address base false depth verbose onIndex onLeaf w.
Proof.
  split.
  - rewrite walkPath_S. cbv zeta.
    destruct (get _ w) as [[resp | [resp|] err] w1]; try discriminate.
    destruct (getContentType resp =? "text/html").
    + destruct (getNodes _ (body resp)) as [nodes [err|]];
        [unfold done; discriminate|].
      destruct (rangeNodes_without_recursion_returns
                  (fun next d => walkPath 0 address next false d verbose
                                          onIndex onLeaf)
                  base depth onIndex nodes w1) as (r & w' & ->).
      unfold done; discriminate.
    + destruct (onLeaf _ _ _ _) as [[e|] w2]; unfold done; discriminate.
  - rewrite !walkPath_S. cbv zeta.
    destruct (get _ w) as [[resp | [resp|] err] w1]; try reflexivity.
    destruct (getContentType resp =? "text/html"); [|reflexivity].
    destruct (getNodes _ (body resp)) as [nodes [err|]]; [reflexivity|].
    now rewrite (rangeNodes_without_recursion
                   (fun next d => walkPath fuel address next false d verbose
                                           onIndex onLeaf)
                   (fun next d => walkPath 0 address next false d verbose
                                           onIndex onLeaf)).
Qed.

Section Failures122.

Variables (site : Site) (address : string) (verbose : bool)
          (failsI : string -> string -> bool) (failsL : string -> bool).

Let walk (fuel : nat) (base : string) (depth : Z) :=
  walkPath (Wd := Recorded site) fuel address base true depth verbose
           (recIndex failsI) (recLeaf failsL).

(** The loop over the links of an album, given what the walk of each
    gallery below does. *)
Lemma rangeNodes_under_failures fuel base depth children :
  (forall c tr, In c children ->
     exists r tr',
       walk fuel (path.Join [base; fst c]) (int_add depth 1) tr
       = Some (Returned r, (tr ++ tr')%list)
       /\ calls tr' = visited122 failsI failsL address
                                 (path.Join [base; fst c])
                                 (int_add depth 1) (snd c)
       /\ failed r = failing122 failsL (path.Join [base; fst c]) (snd c)) ->
  forall tr,
  exists r tr',
    rangeNodes (Wd := Recorded site) (walk fuel) base true depth
               (recIndex failsI) (map fst children) tr
    = Some (Returned r, (tr ++ tr')%list)
    /\ calls tr' =
       linkVisits
         (fun next g' =>
            visited122 failsI failsL address next (int_add depth 1) g')
         (failing122 failsL) failsI base depth children.
Proof.
  induction children as [|c rest IH]; intros Hkids tr.
  - exists None, []. cbn. now rewrite app_nil_r.
  - cbn [map rangeNodes linkVisits]. unfold recIndex at 1.
    destruct (failsI base (fst c)) eqn:Hi.
    + exists (Some (foreignError "index visitor failed")),
             [EvIndex base (fst c) depth]. split; reflexivity.
    + destruct (Hkids c (tr ++ [EvIndex base (fst c) depth])%list
                  (or_introl eq_refl)) as (r & trc & Hc & Hcc & Hr).
      rewrite Hc.
      destruct r as [e|]; cbn [failed] in Hr; rewrite <- Hr.
      * rewrite (handleWalkError_of_walkPath _ _ _ _ _ _ _ _ _ _ _ Hc).
        exists (Some e), ([EvIndex base (fst c) depth] ++ trc)%list.
        split; [now rewrite <- app_assoc|].
        rewrite calls_app, Hcc, app_nil_r. reflexivity.
      * cbn [handleWalkError].
        destruct (IH (fun c' tr' Hin => Hkids c' tr' (or_intror Hin))
                     ((tr ++ [EvIndex base (fst c) depth]) ++ trc)%list)
          as (r & trr & Hrest & Hrc).
        rewrite Hrest.
        exists r, ([EvIndex base (fst c) depth] ++ trc ++ trr)%list.
        split; [now rewrite <- !app_assoc|].
        rewrite !calls_app, Hcc, Hrc. reflexivity.
Qed.

(** X10.  What a recursive walk of version 1.2.2 does on a served
    gallery when visitors fail.  It returns an error only when the page
    it starts on is a file whose leaf visit fails; in an album, the loop
    over the links stops after a failing index visit and after a file
    whose leaf visit fails, the links after it are not visited, and the
    walk of the album returns nil all the same. *)
Theorem walk122_under_failures (fuel : nat) (g : Gallery) (base : string)
    (depth : Z) (tr : list Event) :
  serves site address base g = true ->
  height g <= fuel ->
  exists r tr',
    walkPath (Wd := Recorded site) fuel address base true depth verbose
             (recIndex failsI) (recLeaf failsL) tr
    = Some (Returned r, (tr ++ tr')%list)
    /\ calls tr' = visited122 failsI failsL address base depth g
    /\ failed r = failing122 failsL base g.
Proof.
  revert g base depth tr.
  induction fuel as [|fuel IH]; intros g base depth tr Hs Hh.
  - pose proof (height_positive g). lia.
  - rewrite serves_unfold in Hs. rewrite walkPath_S. cbv zeta.
    change (get (address ++ path.Join ["/var/albums"; base]) tr)
      with (site (address ++ path.Join ["/var/albums"; base]),
            (tr ++ [EvGet (address ++ path.Join ["/var/albums"; base])])%list).
    destruct (site _) as [resp|]; [|discriminate].
    destruct g as [children | ct].
    + apply andb_true_iff in Hs as [Hs Hkids].
      apply andb_true_iff in Hs as [Hct Hnodes].
      rewrite Hct.
      destruct (getNodes _ (body resp)) as [nodes [err|]]; [discriminate|].
      destruct (list_eq_dec string_dec nodes (map fst children))
        as [-> | ]; [|discriminate].
      rewrite forallb_forall in Hkids.
      destruct (rangeNodes_under_failures fuel base depth children) with
        (tr := (tr ++ [EvGet (address ++ path.Join ["/var/albums"; base])])%list)
        as (r & trk & Hk & Hkc).
      { intros c tr0 Hin. apply IH; [now apply Hkids|].
        pose proof (height_child c children Hin). lia. }
      unfold walk in Hk. rewrite Hk. unfold done.
      exists None,
        ([EvGet (address ++ path.Join ["/var/albums"; base])] ++ trk
         ++ (if verbose
             then [EvLog ("Done with: " ++ RequestURL resp ++ " "
                             ++ Status resp ++ " " ++ getContentType resp)]
             else []))%list.
      split; [|split; [|reflexivity]].
      * destruct verbose; cbn [log_Printf Recorded];
          now rewrite <- ?app_assoc, ?app_nil_r.
      * rewrite !calls_app, Hkc. destruct verbose; cbn;
          now rewrite app_nil_r.
    + apply andb_true_iff in Hs as [Hct Hnot].
      apply String.eqb_eq in Hct. rewrite Hct.
      apply negb_true_iff in Hnot. rewrite Hnot.
      unfold recLeaf at 1. cbn [failing122 visited122].
      destruct (failsL base).
      * exists (Some (wrapError resp
                          (leafError (foreignError "leaf visitor failed")))),
               [EvGet (address ++ path.Join ["/var/albums"; base]);
                EvLeaf base ct].
        split; [now rewrite <- app_assoc | split; reflexivity].
      * unfold done.
        exists None,
          ([EvGet (address ++ path.Join ["/var/albums"; base]);
            EvLeaf base ct]
           ++ (if verbose
               then [EvLog ("Done with: " ++ RequestURL resp ++ " "
                               ++ Status resp ++ " " ++ ct)]
               else []))%list.
        split; [|split; [|reflexivity]].
        -- destruct verbose; cbn [log_Printf Recorded];
             now rewrite <- ?app_assoc, ?app_nil_r.
        -- rewrite calls_app. destruct verbose; reflexivity.
Qed.

End Failures122.

Lemma walk122_under_failures_witness :
  (serves gallery "http://g" "" galleryTree = true /\ height galleryTree <= 3) /\
  exists r tr',
    walkPath (Wd := Recorded gallery) 3 "http://g" "" true 0 true
             (recIndex (fun _ node => node =? "B"))
             (recLeaf (String.eqb "A/A1")) []
    = Some (Returned r, tr')
    /\ calls tr' =
       [EvGet "http://g/var/albums"; EvIndex "" "A" 0;
        EvGet "http://g/var/albums/A"; EvIndex "A" "A1" 1;
        EvGet "http://g/var/albums/A/A1"; EvLeaf "A/A1" "image/jpeg";
        EvIndex "" "B" 0]
    /\ failed r = false.
Proof.
  assert (Hh : height galleryTree <= 3) by (simpl; lia).
  split; [split; [reflexivity | exact Hh]|].
  exact (walk122_under_failures gallery "http://g" true
           (fun _ node => node =? "B") (String.eqb "A/A1")
           3 galleryTree "" 0 [] eq_refl Hh).
Defined.

(** ** The walk of version 1.2.1 *)

Lemma getNodes_ok_inv rp b nodes :
  getNodes rp b = (nodes, None) ->
  forallb carriesHref (anchors (tokens b)) = true /\ nodes = kept rp (tokens b).
Proof.
  unfold getNodes. intros Hg.
  destruct (forallb carriesHref (anchors (tokens b))) eqn:Hall.
  - split; [reflexivity|]. revert Hg.
    rewrite <- (app_nil_r (tokens b)) at 1.
    rewrite getNodes_loop_app by exact Hall. cbn.
    now intros [= <- _].
  - destruct (getNodes_loop_error rp (tokens b) (ending b) [] Hall) as [s Hs].
    destruct (getNodes_loop _ _ _ _) as [ns err]. cbn in Hs. subst err.
    discriminate.
Qed.

Section Walk121.

Variables (site : Site) (address : string)
          (failsI : string -> string -> bool) (failsL : string -> bool).

Let walk (fuel : nat) (base : string) (depth : Z) :=
  V121.walkPath (Wd := Recorded site) fuel address base true depth
                (recIndex failsI) (recLeaf failsL).

Let indexError : option error :=
  Some (errorString "Index error: index visitor failed").

(** The loop over the tokens of an album whose anchors all carry an
    href, given what the walk of each gallery below does. *)
Lemma walkTokens_on_album fuel rp base depth toks :
  forallb carriesHref (anchors toks) = true ->
  forall children,
  kept rp toks = map fst children ->
  (forall c tr, In c children ->
     exists tr',
       walk fuel (path.Join [base; fst c]) (int_add depth 1) tr
       = Some (result121 failsI failsL (path.Join [base; fst c]) (snd c),
               (tr ++ tr')%list)
       /\ calls tr' = visited121 failsI address (path.Join [base; fst c])
                                 (int_add depth 1) (snd c)) ->
  forall tr,
  exists tr',
    V121.walkTokens (Wd := Recorded site) (walk fuel) rp base true depth
                    (recIndex failsI) toks tr
    = Some (if linkStops (aborts121 failsI) failsI base children
            then indexError else None,
            (tr ++ tr')%list)
    /\ calls tr' =
       linkVisits
         (fun next g' => visited121 failsI address next (int_add depth 1) g')
         (aborts121 failsI) failsI base depth children.
Proof.
  induction toks as [|t rest IH]; intros Hall children Hkept Hkids tr.
  - destruct children; [|discriminate].
    exists []. cbn. now rewrite app_nil_r.
  - rewrite kept_cons in Hkept. unfold anchors in Hall.
    cbn [filter] in Hall. fold (anchors rest) in Hall.
    cbn [V121.walkTokens].
    assert (Hskip : isAnchor t = false ->
              exists tr',
                V121.walkTokens (Wd := Recorded site) (walk fuel) rp base true
                                depth (recIndex failsI) rest tr
                = Some (if linkStops (aborts121 failsI) failsI base children
                        then indexError else None, (tr ++ tr')%list)
                /\ calls tr' =
                   linkVisits
                     (fun next g' =>
                        visited121 failsI address next (int_add depth 1) g')
                     (aborts121 failsI) failsI base depth children).
    { intros Ha. rewrite Ha in Hall. apply IH; [exact Hall| |exact Hkids].
      unfold kept at 1, anchors in Hkept. cbn [filter] in Hkept.
      rewrite Ha in Hkept. exact Hkept. }
    unfold isAnchor in Hskip.
    destruct (html.isStartTag (html.Type_ t)) eqn:Hst;
      [|now apply Hskip].
    destruct (html.Data t =? "a") eqn:Hd; [|now apply Hskip].
    clear Hskip.
    assert (Ha : isAnchor t = true) by (unfold isAnchor; now rewrite Hst, Hd).
    rewrite Ha in Hall. cbn [forallb] in Hall.
    apply andb_true_iff in Hall as [Hc Hall].
    unfold kept at 1, anchors in Hkept. cbn [filter map] in Hkept.
    rewrite Ha in Hkept. cbn [filter map] in Hkept. unfold href in Hkept.
    rewrite <- getHref_ok in Hc.
    destruct (getHref t) as [ok node]. cbn [fst snd] in Hc, Hkept. subst ok.
    cbn [negb].
    destruct (strings.Contains rp node) eqn:Hcont; cbn [negb app] in Hkept.
    + now apply IH.
    + destruct children as [|c cs]; [discriminate|].
      cbn [map] in Hkept. injection Hkept as Hnode Hrest. subst node.
      cbn [linkVisits linkStops]. unfold recIndex at 1.
      destruct (failsI base (fst c)) eqn:Hi.
      * exists [EvIndex base (fst c) depth]. split; reflexivity.
      * destruct (Hkids c (tr ++ [EvIndex base (fst c) depth])%list
                    (or_introl eq_refl)) as (trc & Hw & Hcc).
        rewrite Hw. cbn [orb].
        assert (Hnext : forall tr1,
                  exists tr',
                    V121.walkTokens (Wd := Recorded site) (walk fuel) rp base
                                    true depth (recIndex failsI) rest tr1
                    = Some (if linkStops (aborts121 failsI) failsI base cs
                            then indexError else None, (tr1 ++ tr')%list)
                    /\ calls tr' =
                       linkVisits
                         (fun next g' =>
                            visited121 failsI address next (int_add depth 1) g')
                         (aborts121 failsI) failsI base depth cs).
        { intros tr1. apply IH; [exact Hall | exact Hrest|].
          intros c' tr' Hin. apply Hkids. now right. }
        destruct (snd c) as [children' | ct] eqn:Hg.
        -- cbn [result121].
           destruct (aborts121 failsI (path.Join [base; fst c])
                               (Album children')) eqn:Hab.
           ++ cbn [is_leafError].
              exists ([EvIndex base (fst c) depth] ++ trc)%list.
              split; [now rewrite <- app_assoc|].
              rewrite calls_app, Hcc, app_nil_r. reflexivity.
           ++ cbn [orb].
              destruct (Hnext ((tr ++ [EvIndex base (fst c) depth]) ++ trc)%list)
                as (trr & Hr & Hrc).
              rewrite Hr.
              exists ([EvIndex base (fst c) depth] ++ trc ++ trr)%list.
              split; [now rewrite <- !app_assoc|].
              rewrite !calls_app, Hcc, Hrc. reflexivity.
        -- cbn [result121 aborts121 orb].
           destruct (failsL (path.Join [base; fst c])); cbn [is_leafError].
           ++ destruct (Hnext
                          (log_Printf (World := Recorded site)
                             (Error (leafError (foreignError "leaf visitor failed")))
                             ((tr ++ [EvIndex base (fst c) depth]) ++ trc))%list)
                as (trr & Hr & Hrc).
              rewrite Hr.
              exists ([EvIndex base (fst c) depth] ++ trc
                      ++ [EvLog (Error (leafError
                                          (foreignError "leaf visitor failed")))]
                      ++ trr)%list.
              split; [cbn [log_Printf Recorded]; now rewrite <- !app_assoc|].
              rewrite !calls_app, Hcc, Hrc. reflexivity.
           ++ destruct (Hnext ((tr ++ [EvIndex base (fst c) depth]) ++ trc)%list)
                as (trr & Hr & Hrc).
              rewrite Hr.
              exists ([EvIndex base (fst c) depth] ++ trc ++ trr)%list.
              split; [now rewrite <- !app_assoc|].
              rewrite !calls_app, Hcc, Hrc. reflexivity.
Qed.

(** The walk of version 1.2.1 on a served gallery. *)
Lemma walk121_on_gallery (fuel : nat) (g : Gallery) (base : string)
    (depth : Z) (tr : list Event) :
  serves site address base g = true ->
  height g <= fuel ->
  exists tr',
    V121.walkPath (Wd := Recorded site) fuel address base true depth
                  (recIndex failsI) (recLeaf failsL) tr
    = Some (result121 failsI failsL base g, (tr ++ tr')%list)
    /\ calls tr' = visited121 failsI address base depth g.
Proof.
  revert g base depth tr.
  induction fuel as [|fuel IH]; intros g base depth tr Hs Hh.
  - pose proof (height_positive g). lia.
  - rewrite serves_unfold in Hs. cbn [V121.walkPath].
    change (get (address ++ path.Join ["/var/albums"; base]) tr)
      with (site (address ++ path.Join ["/var/albums"; base]),
            (tr ++ [EvGet (address ++ path.Join ["/var/albums"; base])])%list).
    destruct (site _) as [resp|]; [|discriminate].
    destruct g as [children | ct].
    + apply andb_true_iff in Hs as [Hs Hkids].
      apply andb_true_iff in Hs as [Hct Hnodes].
      rewrite Hct.
      destruct (getNodes _ (body resp)) as [nodes [err|]] eqn:Hg;
        [discriminate|].
      destruct (list_eq_dec string_dec nodes (map fst children))
        as [-> | ]; [|discriminate].
      apply getNodes_ok_inv in Hg as [Hall Hkept].
      rewrite forallb_forall in Hkids.
      destruct (walkTokens_on_album fuel (path.Join ["/var/albums"; base])
                  base depth (tokens (body resp)) Hall children
                  (eq_sym Hkept)) with
        (tr := (tr ++ [EvGet (address ++ path.Join ["/var/albums"; base])])%list)
        as (trk & Hk & Hkc).
      { intros c tr0 Hin. apply IH; [now apply Hkids|].
        pose proof (height_child c children Hin). lia. }
      unfold walk in Hk. rewrite Hk.
      exists ([EvGet (address ++ path.Join ["/var/albums"; base])] ++ trk)%list.
      split; [now rewrite <- app_assoc|].
      rewrite calls_app, Hkc. reflexivity.
    + apply andb_true_iff in Hs as [Hct Hnot].
      apply String.eqb_eq in Hct. rewrite Hct.
      apply negb_true_iff in Hnot. rewrite Hnot.
      unfold recLeaf at 1. cbn [result121 visited121].
      exists [EvGet (address ++ path.Join ["/var/albums"; base]);
              EvLeaf base ct].
      split; [|reflexivity].
      destruct (failsL base); now rewrite <- app_assoc.
Qed.

End Walk121.

Section Trace121.

Variables (site : Site) (address : string)
          (failsI : string -> string -> bool) (failsL : string -> bool).

Let walk (fuel : nat) (base : string) (depth : Z) :=
  V121.walkPath (Wd := Recorded site) fuel address base true depth
                (recIndex failsI) (recLeaf failsL).

Let indexError : option error :=
  Some (errorString "Index error: index visitor failed").

Let below (depth : Z) (next : string) (g' : Gallery) : list Event :=
  (trace121 failsI failsL address next (int_add depth 1) g'
   ++ leafLog failsL next g')%list.

(** The loop over the tokens of an album, with all it leaves on the
    trace, given what the walk of each gallery below does. *)
Lemma walkTokens_trace fuel rp base depth toks :
  forallb carriesHref (anchors toks) = true ->
  forall children,
  kept rp toks = map fst children ->
  (forall c tr, In c children ->
     walk fuel (path.Join [base; fst c]) (int_add depth 1) tr
     = Some (result121 failsI failsL (path.Join [base; fst c]) (snd c),
             (tr ++ trace121 failsI failsL address (path.Join [base; fst c])
                             (int_add depth 1) (snd c))%list)) ->
  forall tr,
    V121.walkTokens (Wd := Recorded site) (walk fuel) rp base true depth
                    (recIndex failsI) toks tr
    = Some (if linkStops (aborts121 failsI) failsI base children
            then indexError else None,
            (tr ++ linkVisits (below depth) (aborts121 failsI) failsI base
                              depth children)%list).
Proof.
  induction toks as [|t rest IH]; intros Hall children Hkept Hkids tr.
  - destruct children; [|discriminate]. cbn. now rewrite app_nil_r.
  - rewrite kept_cons in Hkept. unfold anchors in Hall.
    cbn [filter] in Hall. fold (anchors rest) in Hall.
    cbn [V121.walkTokens].
    assert (Hskip : isAnchor t = false ->
              V121.walkTokens (Wd := Recorded site) (walk fuel) rp base true
                              depth (recIndex failsI) rest tr
              = Some (if linkStops (aborts121 failsI) failsI base children
                      then indexError else None,
                      (tr ++ linkVisits (below depth) (aborts121 failsI)
                                        failsI base depth children)%list)).
    { intros Ha. rewrite Ha in Hall. apply IH; [exact Hall| |exact Hkids].
      unfold kept at 1, anchors in Hkept. cbn [filter] in Hkept.
      rewrite Ha in Hkept. exact Hkept. }
    unfold isAnchor in Hskip.
    destruct (html.isStartTag (html.Type_ t)) eqn:Hst;
      [|now apply Hskip].
    destruct (html.Data t =? "a") eqn:Hd; [|now apply Hskip].
    clear Hskip.
    assert (Ha : isAnchor t = true) by (unfold isAnchor; now rewrite Hst, Hd).
    rewrite Ha in Hall. cbn [forallb] in Hall.
    apply andb_true_iff in Hall as [Hc Hall].
    unfold kept at 1, anchors in Hkept. cbn [filter map] in Hkept.
    rewrite Ha in Hkept. cbn [filter map] in Hkept. unfold href in Hkept.
    rewrite <- getHref_ok in Hc.
    destruct (getHref t) as [ok node]. cbn [fst snd] in Hc, Hkept. subst ok.
    cbn [negb].
    destruct (strings.Contains rp node) eqn:Hcont; cbn [negb app] in Hkept.
    + now apply IH.
    + destruct children as [|c cs]; [discriminate|].
      cbn [map] in Hkept. injection Hkept as Hnode Hrest. subst node.
      cbn [linkVisits linkStops]. unfold recIndex at 1.
      destruct (failsI base (fst c)) eqn:Hi; [reflexivity|].
      rewrite (Hkids c (tr ++ [EvIndex base (fst c) depth])%list
                 (or_introl eq_refl)).
      cbn [orb].
      assert (Hnext : forall tr1,
                V121.walkTokens (Wd := Recorded site) (walk fuel) rp base
                                true depth (recIndex failsI) rest tr1
                = Some (if linkStops (aborts121 failsI) failsI base cs
                        then indexError else None,
                        (tr1 ++ linkVisits (below depth) (aborts121 failsI)
                                           failsI base depth cs)%list)).
      { intros tr1. apply IH; [exact Hall | exact Hrest|].
        intros c' tr' Hin. apply Hkids. now right. }
      unfold below at 1.
      destruct (snd c) as [children' | ct] eqn:Hg.
      * cbn [result121 leafLog].
        destruct (aborts121 failsI (path.Join [base; fst c])
                            (Album children')) eqn:Hab.
        -- cbn [is_leafError]. now rewrite !app_nil_r, <- app_assoc.
        -- cbn [orb]. rewrite Hnext. now rewrite app_nil_r, <- !app_assoc.
      * cbn [result121 aborts121 orb leafLog].
        destruct (failsL (path.Join [base; fst c])); cbn [is_leafError].
        -- rewrite Hnext. cbn [log_Printf Recorded Error].
           now rewrite <- !app_assoc.
        -- rewrite Hnext. now rewrite app_nil_r, <- !app_assoc.
Qed.

(** The walk of version 1.2.1 on a served gallery, with its log. *)
Lemma walk121_trace (fuel : nat) (g : Gallery) (base : string)
    (depth : Z) (tr : list Event) :
  serves site address base g = true ->
  height g <= fuel ->
  V121.walkPath (Wd := Recorded site) fuel address base true depth
                (recIndex failsI) (recLeaf failsL) tr
  = Some (result121 failsI failsL base g,
          (tr ++ trace121 failsI failsL address base depth g)%list).
Proof.
  revert g base depth tr.
  induction fuel as [|fuel IH]; intros g base depth tr Hs Hh.
  - pose proof (height_positive g). lia.
  - rewrite serves_unfold in Hs. cbn [V121.walkPath].
    change (get (address ++ path.Join ["/var/albums"; base]) tr)
      with (site (address ++ path.Join ["/var/albums"; base]),
            (tr ++ [EvGet (address ++ path.Join ["/var/albums"; base])])%list).
    destruct (site _) as [resp|]; [|discriminate].
    destruct g as [children | ct].
    + apply andb_true_iff in Hs as [Hs Hkids].
      apply andb_true_iff in Hs as [Hct Hnodes].
      rewrite Hct.
      destruct (getNodes _ (body resp)) as [nodes [err|]] eqn:Hg;
        [discriminate|].
      destruct (list_eq_dec string_dec nodes (map fst children))
        as [-> | ]; [|discriminate].
      apply getNodes_ok_inv in Hg as [Hall Hkept].
      rewrite forallb_forall in Hkids.
      pose proof (walkTokens_trace fuel (path.Join ["/var/albums"; base])
                    base depth (tokens (body resp)) Hall children
                    (eq_sym Hkept)) as Hk.
      unfold walk in Hk. rewrite Hk.
      * cbn [trace121]. now rewrite <- app_assoc.
      * intros c tr0 Hin. apply IH; [now apply Hkids|].
        pose proof (height_child c children Hin). lia.
    + apply andb_true_iff in Hs as [Hct Hnot].
      apply String.eqb_eq in Hct. rewrite Hct.
      apply negb_true_iff in Hnot. rewrite Hnot.
      unfold recLeaf at 1. cbn [result121 trace121].
      destruct (failsL base); now rewrite <- app_assoc.
Qed.

End Trace121.

(** X11.  What a recursive walk of version 1.2.1 does on a served
    gallery when visitors fail: it returns [result121] and adds exactly
    [trace121] to the trace.  A failing leaf visit is logged by the walk
    of the album above, as [Leaf error: ...] right after the walk of the
    file, and ends nothing; a failing index visit ends the whole walk at
    once, with the error [Index error: ...] as its result; a file the
    walk starts on gives its leaf error.  Without the log lines the
    trace is [visited121]. *)
Theorem walk121_under_failures (site : Site) (address : string)
    (failsI : string -> string -> bool) (failsL : string -> bool)
    (fuel : nat) (g : Gallery) (base : string) (depth : Z) (tr : list Event) :
  serves site address base g = true ->
  height g <= fuel ->
  V121.walkPath (Wd := Recorded site) fuel address base true depth
                (recIndex failsI) (recLeaf failsL) tr
  = Some (result121 failsI failsL base g,
          (tr ++ trace121 failsI failsL address base depth g)%list)
  /\ calls (trace121 failsI failsL address base depth g)
     = visited121 failsI address base depth g.
Proof.
  intros Hs Hh.
  pose proof (walk121_trace site address failsI failsL fuel g base depth tr
                Hs Hh) as Ht.
  split; [exact Ht|].
  destruct (walk121_on_gallery site address failsI failsL fuel g base depth tr
              Hs Hh) as (tr' & Hw & Hc).
  rewrite Ht in Hw. injection Hw as Heq.
  apply app_inv_head in Heq. now rewrite Heq.
Qed.

Lemma walk121_under_failures_witness :
  (serves gallery "http://g" "" galleryTree = true /\ height galleryTree <= 3) /\
  V121.walkPath (Wd := Recorded gallery) 3 "http://g" "" true 0
                (recIndex (fun _ node => node =? "B"))
                (recLeaf (fun _ => true)) []
  = Some (Some (errorString "Index error: index visitor failed"),
          [EvGet "http://g/var/albums"; EvIndex "" "A" 0;
           EvGet "http://g/var/albums/A"; EvIndex "A" "A1" 1;
           EvGet "http://g/var/albums/A/A1"; EvLeaf "A/A1" "image/jpeg";
           EvLog "Leaf error: leaf visitor failed";
           EvIndex "A" "A2" 1;
           EvGet "http://g/var/albums/A/A2"; EvLeaf "A/A2" "image/jpeg";
           EvLog "Leaf error: leaf visitor failed";
           EvIndex "" "B" 0]).
Proof.
  assert (Hh : height galleryTree <= 3) by (simpl; lia).
  split; [split; [reflexivity | exact Hh]|].
  exact (proj1 (walk121_under_failures gallery "http://g"
                  (fun _ node => node =? "B") (fun _ => true)
                  3 galleryTree "" 0 [] eq_refl Hh)).
Defined.

Lemma never2_never_aborts n :
  forall g base, height g <= n -> aborts121 never2 base g = false.
Proof.
  induction n as [|n IH]; intros g base Hh.
  - pose proof (height_positive g). lia.
  - destruct g as [children | ct]; [|reflexivity].
    cbn [aborts121].
    assert (Hkids : forall c, In c children -> height (snd c) <= n).
    { intros c Hin. pose proof (height_child c children Hin). lia. }
    clear Hh. induction children as [|c cs IHc]; [reflexivity|].
    cbn [linkStops]. unfold never2 at 1. cbn [orb].
    rewrite (IH (snd c)) by (apply Hkids; now left). cbn [orb].
    apply IHc. intros c' Hin. apply Hkids. now right.
Qed.

Lemma visited121_never2 address n :
  forall g base depth,
    height g <= n ->
    visited121 never2 address base depth g = visitOrder address base depth g.
Proof.
  induction n as [|n IH]; intros g base depth Hh.
  - pose proof (height_positive g). lia.
  - destruct g as [children | ct]; [|reflexivity].
    cbn [visited121 visitOrder]. f_equal.
    assert (Hkids : forall c, In c children -> height (snd c) <= n).
    { intros c Hin. pose proof (height_child c children Hin). lia. }
    clear Hh. induction children as [|c cs IHc]; [reflexivity|].
    cbn [linkVisits flat_map]. unfold never2 at 1.
    rewrite (never2_never_aborts n) by (apply Hkids; now left).
    rewrite (IH (snd c)) by (apply Hkids; now left).
    rewrite IHc by (intros c' Hin; apply Hkids; now right).
    reflexivity.
Qed.

(** X12.  Version 1.2.1 contains the failures of leaf visits: with an
    index visitor that succeeds, a recursive walk of a served album
    returns nil and makes all the calls of the depth-first order,
    whichever leaf visits fail. *)
Theorem walk121_contains_leaf_failures (site : Site) (address : string)
    (failsL : string -> bool)
    (fuel : nat) (children : list (string * Gallery)) (base : string)
    (depth : Z) (tr : list Event) :
  serves site address base (Album children) = true ->
  height (Album children) <= fuel ->
  exists tr',
    V121.walkPath (Wd := Recorded site) fuel address base true depth
                  (recIndex never2) (recLeaf failsL) tr
    = Some (None, (tr ++ tr')%list)
    /\ calls tr' = visitOrder address base depth (Album children).
Proof.
  intros Hs Hh.
  destruct (walk121_on_gallery site address never2 failsL fuel
              (Album children) base depth tr Hs Hh) as (tr' & Hw & Hc).
  exists tr'. split.
  - rewrite Hw. unfold result121.
    now rewrite (never2_never_aborts fuel (Album children) base Hh).
  - rewrite Hc. now apply (visited121_never2 address fuel).
Qed.

Lemma walk121_contains_leaf_failures_witness :
  (serves gallery "http://g" "" galleryTree = true /\ height galleryTree <= 3) /\
  exists tr',
    V121.walkPath (Wd := Recorded gallery) 3 "http://g" "" true 0
                  (recIndex never2) (recLeaf (fun _ => true)) []
    = Some (None, tr')
    /\ calls tr' =
       [EvGet "http://g/var/albums"; EvIndex "" "A" 0;
        EvGet "http://g/var/albums/A"; EvIndex "A" "A1" 1;
        EvGet "http://g/var/albums/A/A1"; EvLeaf "A/A1" "image/jpeg";
        EvIndex "A" "A2" 1;
        EvGet "http://g/var/albums/A/A2"; EvLeaf "A/A2" "image/jpeg";
        EvIndex "" "B" 0;
        EvGet "http://g/var/albums/B"; EvLeaf "B" "image/jpeg"].
Proof.
  assert (Hh : height galleryTree <= 3) by (simpl; lia).
  split; [split; [reflexivity | exact Hh]|].
  exact (walk121_contains_leaf_failures gallery "http://g" (fun _ => true) 3
           [ ("A", Album [ ("A1", File "image/jpeg"); ("A2", File "image/jpeg") ]);
             ("B", File "image/jpeg") ] "" 0 [] eq_refl Hh).
Defined.

Lemma getNodes_loop_acc rp toks fin nodes :
  getNodes_loop rp toks fin nodes =
  ((nodes ++ fst (getNodes_loop rp toks fin []))%list,
   snd (getNodes_loop rp toks fin [])).
Proof.
  revert nodes; induction toks as [|t rest IH]; intros nodes.
  - cbn. now rewrite app_nil_r.
  - cbn [getNodes_loop].
    destruct (html.isStartTag (html.Type_ t) && (html.Data t =? "a"));
      [|apply IH].
    destruct (getHref t) as [ok node].
    destruct (strings.Contains rp node); cbn [negb].
    + destruct ok; [apply IH | cbn; now rewrite app_nil_r].
    + destruct ok; [|reflexivity].
      rewrite IH, (IH ([] ++ [node])%list). cbn [fst snd].
      now rewrite <- !app_assoc.
Qed.

Lemma walkTokens_without_recursion (site : Site)
    (walk : string -> Z -> list Event -> option (option error * list Event))
    rp base depth toks fin tr :
  V121.walkTokens (Wd := Recorded site) walk rp base false depth
                  (recIndex never2) toks tr
  = Some (if forallb carriesHref (anchors toks) then None
          else Some (snd (getNodes_loop rp toks fin [])),
          (tr ++ map (fun node => EvIndex base node depth)
                     (fst (getNodes_loop rp toks fin [])))%list).
Proof.
  revert tr; induction toks as [|t rest IH]; intros tr.
  - cbn. now rewrite app_nil_r.
  - unfold anchors. cbn [filter V121.walkTokens getNodes_loop].
    fold (anchors rest). unfold isAnchor.
    destruct (html.isStartTag (html.Type_ t)); cbn [andb]; [|apply IH].
    destruct (html.Data t =? "a"); [|apply IH].
    cbn [forallb]. rewrite <- getHref_ok.
    destruct (getHref t) as [ok node] eqn:Hh. cbn [fst].
    destruct ok; cbn [negb andb].
    + destruct (strings.Contains rp node); cbn [negb]; [apply IH|].
      unfold recIndex at 1, never2 at 1. rewrite IH.
      rewrite (getNodes_loop_acc rp rest fin ([] ++ [node])%list).
      cbn [fst snd app map]. now rewrite <- app_assoc.
    + assert (Hn : node = "").
      { pose proof (getHref_ok t) as Hok. rewrite Hh in Hok. cbn in Hok.
        symmetry in Hok. apply getHref_missing in Hok. congruence. }
      subst node. rewrite Contains_empty. cbn. now rewrite app_nil_r.
Qed.

(** X13.  Without recursion, version 1.2.1 calls the index visitor on
    the links [getNodes] yields for the page, those before an anchor
    without an href too, and returns the error [getNodes] gives for that
    anchor; where the body cannot be read to its end it returns nil,
    not the error of the read. *)
Theorem walk121_visits_what_getNodes_yields (site : Site)
    (address base : string) (depth : Z) (onLeaf : leafAction (list Event))
    (fuel : nat) (tr : list Event) (resp : Response) :
  let url := address ++ path.Join ["/var/albums"; base] in
  let found := getNodes (path.Join ["/var/albums"; base]) (body resp) in
  site url = GetOk resp ->
  getContentType resp = "text/html" ->
  V121.walkPath (Wd := Recorded site) (S fuel) address base false depth
                (recIndex never2) onLeaf tr
  = Some (if forallb carriesHref (anchors (tokens (body resp))) then None
          else snd found,
          (tr ++ EvGet url
              :: map (fun node => EvIndex base node depth) (fst found))%list).
Proof.
  intros url found Hsite Hct. cbn [V121.walkPath].
  change (get (address ++ path.Join ["/var/albums"; base]) tr)
    with (site url, (tr ++ [EvGet url])%list).
  rewrite Hsite, Hct.
  change ("text/html" =? "text/html") with true. cbv iota.
  rewrite (walkTokens_without_recursion site _ _ base depth
             (tokens (body resp)) (ending (body resp))).
  unfold found, getNodes.
  destruct (forallb carriesHref (anchors (tokens (body resp)))) eqn:Hall.
  - destruct (getNodes_loop _ _ _ _) as [nodes err]. cbn [fst snd].
    now rewrite <- app_assoc.
  - destruct (getNodes_loop_error (path.Join ["/var/albums"; base])
                (tokens (body resp)) (ending (body resp)) [] Hall) as [s Hs].
    destruct (getNodes_loop _ _ _ _) as [nodes err]. cbn [fst snd] in *.
    subst err. cbn [is_EOF]. now rewrite <- app_assoc.
Qed.

Lemma walk121_visits_what_getNodes_yields_witness :
  (malformed ("http://g" ++ path.Join ["/var/albums"; ""])
   = GetOk (htmlPage "http://g/var/albums"
              {| tokens := [anchor "A"; tag html.StartTagToken "a"; anchor "B"];
                 ending := io_EOF |})
   /\ getContentType
        (htmlPage "http://g/var/albums"
           {| tokens := [anchor "A"; tag html.StartTagToken "a"; anchor "B"];
              ending := io_EOF |}) = "text/html")
  /\ V121.walkPath (Wd := Recorded malformed) 1 "http://g" "" false 0
                   (recIndex never2) (recLeaf never1) []
     = Some (Some (errorString "No url for <a>"),
             [EvGet "http://g/var/albums"; EvIndex "" "A" 0]).
Proof.
  split; [split; reflexivity|].
  exact (walk121_visits_what_getNodes_yields malformed "http://g" "" 0
           (recLeaf never1) 0 [] _ eq_refl eq_refl).
Defined.

(** ** A page that cannot be fetched, below the start of the walk *)

(** The loop over the links composes: the links after a stretch are
    visited from the world the stretch left, when the stretch went
    through with a nil error. *)
Lemma rangeNodes_app {W : Type} {Wd : World W}
    (walk : string -> Z -> W -> option (outcome (option error) * W))
    base recurse depth (onIndex : indexAction W) pre rest w :
  rangeNodes walk base recurse depth onIndex (pre ++ rest) w =
  match rangeNodes walk base recurse depth onIndex pre w with
  | Some (Returned None, w') =>
      rangeNodes walk base recurse depth onIndex rest w'
  | r => r
  end.
Proof.
  revert w; induction pre as [|node pre IH]; intros w; [reflexivity|].
  cbn [app rangeNodes].
  destruct (onIndex base node depth w) as [[e|] w1]; [reflexivity|].
  destruct recurse; [|apply IH].
  destruct (walk _ _ w1) as [[[r|] w2]|]; try reflexivity.
  destruct (handleWalkError r w2) as [[e|] w3]; [reflexivity | apply IH].
Qed.

(** X14.  In version 1.2.2 a [get] that fails without a response on a
    link of an index page, after links that were walked without error,
    makes the whole recursive walk of that page panic: the links after
    it are not visited and no error is returned. *)
Theorem failed_get_below_crashes_the_walk {W : Type} {Wd : World W}
    (address base : string) (depth : Z) (verbose : bool)
    (onIndex : indexAction W) (onLeaf : leafAction W)
    (fuel : nat) (w w1 w2 w3 w4 : W) (resp : Response)
    (pre rest : list string) (node : string) (err : error) :
  get (address ++ path.Join ["/var/albums"; base]) w = (GetOk resp, w1) ->
  getContentType resp = "text/html" ->
  getNodes (path.Join ["/var/albums"; base]) (body resp)
  = ((pre ++ node :: rest)%list, None) ->
  rangeNodes (fun next d => walkPath (S fuel) address next true d verbose
                                     onIndex onLeaf)
             base true depth onIndex pre w1
  = Some (Returned None, w2) ->
  onIndex base node depth w2 = (None, w3) ->
  get (address ++ path.Join ["/var/albums"; path.Join [base; node]]) w3
  = (GetErr None err, w4) ->
  walkPath (S (S fuel)) address base true depth verbose onIndex onLeaf w
  = Some (Panicked, w4).
Proof.
  intros Hg Hct Hn Hpre Hi Hchild.
  rewrite walkPath_S. cbv zeta. rewrite Hg, Hct.
  change ("text/html" =? "text/html") with true. cbv iota.
  rewrite Hn, rangeNodes_app, Hpre.
  cbn [rangeNodes]. rewrite Hi.
  now rewrite (walkPath_get_failure_panics _ _ _ _ _ _ _ _ _ _ _ Hchild).
Qed.

Lemma failed_get_below_crashes_the_walk_witness :
  walkPath (Wd := Recorded broken) 2 "http://g" "" true 0 false
           (recIndex never2) (recLeaf never1) []
  = Some (Panicked,
          [EvGet "http://g/var/albums"; EvIndex "" "A" 0;
           EvGet "http://g/var/albums/A"; EvLeaf "A" "image/jpeg";
           EvIndex "" "B" 0; EvGet "http://g/var/albums/B"]).
Proof.
  exact (failed_get_below_crashes_the_walk (Wd := Recorded broken)
           "http://g" "" 0 false (recIndex never2) (recLeaf never1) 0
           [] _ _ _ _ (htmlPage "http://g/var/albums" (listing ["A"; "B"; "C"]))
           ["A"] ["C"] "B"
           (foreignError "Get http://g/var/albums/B: connection refused")
           eq_refl eq_refl eq_refl eq_refl eq_refl eq_refl).
Defined.

(** ** What [ls] and [diff] print *)

Section Emitting.

Variables (site : Site) (address : string) (verbose recurse : bool)
          (emit : string -> string -> Z -> list string)
          (onIndex : indexAction (list string)).

Hypothesis onIndex_emits :
  forall base node depth out,
    onIndex base node depth out = (None, (out ++ emit base node depth)%list).

Let walk (fuel : nat) (base : string) (depth : Z) :=
  walkPath (Wd := Quiet site) fuel address base recurse depth verbose
           onIndex doNothingOnLeaf.

Lemma rangeNodes_emits fuel base depth children :
  (recurse = true ->
   forall c out, In c children ->
     walk fuel (path.Join [base; fst c]) (int_add depth 1) out
     = Some (Returned None,
             (out ++ emitted emit recurse (path.Join [base; fst c])
                             (int_add depth 1) (snd c))%list)) ->
  forall out,
    rangeNodes (Wd := Quiet site) (walk fuel) base recurse depth onIndex
               (map fst children) out
    = Some (Returned None,
            (out ++ flat_map
                      (fun c =>
                         emit base (fst c) depth
                         ++ (if recurse
                             then emitted emit recurse (path.Join [base; fst c])
                                          (int_add depth 1) (snd c)
                             else []))
                      children)%list).
Proof.
  induction children as [|c rest IH]; intros Hkids out.
  - cbn. now rewrite app_nil_r.
  - cbn [map rangeNodes flat_map]. rewrite onIndex_emits.
    assert (Hrest : recurse = true ->
              forall c' out', In c' rest ->
                walk fuel (path.Join [base; fst c']) (int_add depth 1) out'
                = Some (Returned None,
                        (out' ++ emitted emit recurse (path.Join [base; fst c'])
                                         (int_add depth 1) (snd c'))%list)).
    { intros Hr c' out' Hin. apply Hkids; [exact Hr | now right]. }
    destruct recurse eqn:Hr.
    + rewrite (Hkids eq_refl c _ (or_introl eq_refl)).
      cbn [handleWalkError]. rewrite (IH Hrest).
      now rewrite <- !app_assoc.
    + rewrite (IH Hrest). now rewrite app_nil_r, <- !app_assoc.
Qed.

(** A walk whose index visitor only writes lines and whose leaf visitor
    does nothing, on a served gallery. *)
Lemma walkPath_emits (fuel : nat) (g : Gallery) (base : string) (depth : Z)
    (out : list string) :
  serves site address base g = true ->
  height g <= fuel ->
  walkPath (Wd := Quiet site) fuel address base recurse depth verbose
           onIndex doNothingOnLeaf out
  = Some (Returned None, (out ++ emitted emit recurse base depth g)%list).
Proof.
  revert g base depth out.
  induction fuel as [|fuel IH]; intros g base depth out Hs Hh.
  - pose proof (height_positive g). lia.
  - rewrite serves_unfold in Hs. rewrite walkPath_S. cbv zeta.
    change (get (address ++ path.Join ["/var/albums"; base]) out)
      with (site (address ++ path.Join ["/var/albums"; base]), out).
    destruct (site _) as [resp|]; [|discriminate].
    destruct g as [children | ct].
    + apply andb_true_iff in Hs as [Hs Hkids].
      apply andb_true_iff in Hs as [Hct Hnodes].
      rewrite Hct.
      destruct (getNodes _ (body resp)) as [nodes [err|]]; [discriminate|].
      destruct (list_eq_dec string_dec nodes (map fst children))
        as [-> | ]; [|discriminate].
      rewrite forallb_forall in Hkids.
      pose proof (rangeNodes_emits fuel base depth children) as Hk.
      unfold walk in Hk. rewrite Hk.
      * unfold done. cbn [emitted log_Printf Quiet].
        now destruct verbose.
      * intros _ c out' Hin. apply IH; [now apply Hkids|].
        pose proof (height_child c children Hin). lia.
    + apply andb_true_iff in Hs as [Hct Hnot].
      apply String.eqb_eq in Hct. rewrite Hct.
      apply negb_true_iff in Hnot. rewrite Hnot.
      unfold doNothingOnLeaf, done. cbn [emitted log_Printf Quiet].
      rewrite app_nil_r. now destruct verbose.
Qed.

End Emitting.

(** X15.  [ls] on a served gallery prints one line for each link, in
    the order of the depth-first walk (only the links of the first page
    without the recurse flag), the name of the link after as many tabs
    as its depth, and ends without an error. *)
Theorem ls_prints_the_outline (site : Site) (ctx : cliContext)
    (g : Gallery) (fuel : nat) (out : list string) :
  (GlobalString_url ctx =? "") = false ->
  serves site (GlobalString_url ctx) (nth 0 (Args ctx) "") g = true ->
  height g <= fuel ->
  ls (Wd := Quiet site) stdout_append fuel ctx out
  = Some (Finished,
          (out ++ emitted ls_line (Bool_recurse ctx)
                          (nth 0 (Args ctx) "") 0 g)%list).
Proof.
  intros Hurl Hs Hh. unfold ls, getAddress. rewrite Hurl.
  rewrite (walkPath_emits site (GlobalString_url ctx) (Bool_verbose ctx)
             (Bool_recurse ctx) ls_line (ls_onIndex stdout_append)
             (fun _ _ _ _ => eq_refl) fuel g _ 0 out Hs Hh).
  reflexivity.
Qed.

Lemma ls_prints_the_outline_witness :
  ((GlobalString_url {| GlobalString_url := "http://g"; Args := [];
                        Bool_recurse := true; Bool_verbose := true |} =? "")
   = false
   /\ serves gallery "http://g" "" galleryTree = true
   /\ height galleryTree <= 3)
  /\ ls (Wd := Quiet gallery) stdout_append 3
        {| GlobalString_url := "http://g"; Args := [];
           Bool_recurse := true; Bool_verbose := true |} []
     = Some (Finished,
             ["A" ++ newline; tab ++ "A1" ++ newline; tab ++ "A2" ++ newline;
              "B" ++ newline]).
Proof.
  assert (Hh : height galleryTree <= 3) by (simpl; lia).
  split; [split; [reflexivity | split; [reflexivity | exact Hh]]|].
  exact (ls_prints_the_outline gallery
           {| GlobalString_url := "http://g"; Args := [];
              Bool_recurse := true; Bool_verbose := true |}
           galleryTree 3 [] eq_refl eq_refl Hh).
Defined.

(** X16.  [diff] on a served gallery, over local files none of whose
    [os.Stat] fails for another reason than absence, prints the local
    path of each link that does not exist locally, files and albums
    alike, in the order of the walk, and ends without an error. *)
Theorem diff_prints_the_missing_paths (site : Site) (present : string -> bool)
    (ctx : cliContext) (g : Gallery) (fuel : nat) (out : list string) :
  (GlobalString_url ctx =? "") = false ->
  serves site (GlobalString_url ctx) (nth 0 (Args ctx) "/") g = true ->
  height g <= fuel ->
  diff (Wd := Quiet site) stdout_append (stat_of present) isNotExist
       fuel ctx out
  = Some (Finished,
          (out ++ emitted (diff_line present (nth 1 (Args ctx) "."))
                          (Bool_recurse ctx) (nth 0 (Args ctx) "/") 0 g)%list).
Proof.
  intros Hurl Hs Hh. unfold diff, getAddress. rewrite Hurl.
  assert (Hemit : forall base node depth out',
            diff_onIndex stdout_append (stat_of present) isNotExist
                         (nth 1 (Args ctx) ".") base node depth out'
            = (None, (out' ++ diff_line present (nth 1 (Args ctx) ".")
                                        base node depth)%list)).
  { intros base node depth out'. unfold diff_onIndex, diff_line, stat_of.
    destruct (present _); cbn [isNotExist];
      [now rewrite app_nil_r | reflexivity]. }
  rewrite (walkPath_emits site (GlobalString_url ctx) (Bool_verbose ctx)
             (Bool_recurse ctx) (diff_line present (nth 1 (Args ctx) "."))
             _ Hemit fuel g _ 0 out Hs Hh).
  reflexivity.
Qed.

Lemma diff_prints_the_missing_paths_witness :
  ((GlobalString_url {| GlobalString_url := "http://g"; Args := ["/"; "pics"];
                        Bool_recurse := true; Bool_verbose := false |} =? "")
   = false
   /\ serves gallery "http://g" "/" galleryTree = true
   /\ height galleryTree <= 3)
  /\ diff (Wd := Quiet gallery) stdout_append
          (stat_of (fun p => (p =? "pics/A") || (p =? "pics/A/A1")))
          isNotExist 3
          {| GlobalString_url := "http://g"; Args := ["/"; "pics"];
             Bool_recurse := true; Bool_verbose := false |} []
     = Some (Finished, ["pics/A/A2" ++ newline; "pics/B" ++ newline]).
Proof.
  assert (Hh : height galleryTree <= 3) by (simpl; lia).
  split; [split; [reflexivity | split; [reflexivity | exact Hh]]|].
  exact (diff_prints_the_missing_paths gallery
           (fun p => (p =? "pics/A") || (p =? "pics/A/A1"))
           {| GlobalString_url := "http://g"; Args := ["/"; "pics"];
              Bool_recurse := true; Bool_verbose := false |}
           galleryTree 3 [] eq_refl eq_refl Hh).
Defined.

(** ** The commands on an index page *)

Lemma afterWalk_not_fatal {W : Type}
    (r : option (outcome (option error) * W)) :
  (forall e w', r <> Some (Returned (Some e), w')) ->
  forall msg w', afterWalk r <> Some (Fatal msg, w').
Proof.
  intros Hr msg w'. destruct r as [[[[e|]|] w0]|]; cbn; try discriminate.
  now destruct (Hr e w0).
Qed.

Lemma nth_of_first (args : list string) (a d : string) :
  nth_error args 0 = Some a -> nth 0 args d = a.
Proof. destruct args; cbn; [discriminate | now intros [= ->]]. Qed.

Section CommandsOnAlbum.

Context {W : Type} {Wd : World W}.
Variable os_Stdout : string -> W -> W.
Variable os_Stat : string -> W -> option error * W.
Variable os_IsNotExist : option error -> bool.
Variable os_MkdirAll : string -> W -> option error * W.
Variable os_Create : string -> W -> option error * W.
Variable io_Copy : string -> Response -> W -> Z * option error * W.

(** X17.  A command given a remote path whose page is [text/html] never
    ends by reporting an error with [log.Fatal], whatever the visitors
    and the pages below did: [ls], [diff] and [fetch] end normally, or
    crash on a panic. *)
Theorem commands_on_an_index_page_report_no_error
    (fuel : nat) (ctx : cliContext) (remotePath : string) (w w1 : W)
    (resp : Response) :
  (GlobalString_url ctx =? "") = false ->
  nth_error (Args ctx) 0 = Some remotePath ->
  get (GlobalString_url ctx ++ path.Join ["/var/albums"; remotePath]) w
  = (GetOk resp, w1) ->
  getContentType resp = "text/html" ->
  forall msg w',
    ls os_Stdout fuel ctx w <> Some (Fatal msg, w')
    /\ diff os_Stdout os_Stat os_IsNotExist fuel ctx w <> Some (Fatal msg, w')
    /\ fetch os_Stat os_IsNotExist os_MkdirAll os_Create io_Copy fuel ctx w
       <> Some (Fatal msg, w').
Proof.
  intros Hurl Harg Hg Hct msg w'.
  unfold ls, diff, fetch, getAddress. rewrite Hurl.
  rewrite !(nth_of_first _ _ _ Harg). cbv zeta.
  repeat split.
  - apply afterWalk_not_fatal. intros e w2.
    exact (walkPath_index_page_no_error _ _ _ _ _ _ _ _ _ _ _ _ _ Hg Hct).
  - apply afterWalk_not_fatal. intros e w2.
    exact (walkPath_index_page_no_error _ _ _ _ _ _ _ _ _ _ _ _ _ Hg Hct).
  - assert (Hg' : get (GlobalString_url ctx
                         ++ path.Join ["/var/albums"; remotePath])
                      {| count := 0; world := w |}
                  = (GetOk resp, {| count := 0; world := w1 |})).
    { change (get ?u {| count := 0; world := w |})
        with (let (r, w0) := get u w in
              (r, inWorld {| count := 0; world := w |} w0)).
      now rewrite Hg. }
    pose proof (fun e s =>
                  walkPath_index_page_no_error
                    (GlobalString_url ctx) remotePath (Bool_recurse ctx) 0
                    (Bool_verbose ctx) (fetch_onIndex (Bool_verbose ctx))
                    (fetch_onLeaf os_Stat os_IsNotExist os_MkdirAll os_Create
                                  io_Copy (nth 1 (Args ctx) ".")
                                  (Bool_verbose ctx))
                    fuel _ _ _ e s Hg' Hct) as Hno.
    destruct (walkPath _ _ _ _ _ _ _ _ _) as [[[[e|]|] s]|];
      try discriminate.
    now destruct (Hno e s).
Qed.

Lemma int_add_one_changes (c : Z) : int_add c 1 <> c.
Proof.
  unfold int_add, int_wrap. intros Heq.
  pose proof (Z.div_mod (c + 1 + 2 ^ 63) (2 ^ 64)) as Hd.
  change (2 ^ 64)%Z with 18446744073709551616%Z in *.
  change (2 ^ 63)%Z with 9223372036854775808%Z in *.
  lia.
Qed.

(** X18.  The leaf visitor of [fetch] counts exactly the downloads that
    went through.  [count] grows by one, a real change, when the file
    was reported missing and [MkdirAll], [Create] and the copy all
    succeeded, and then the visitor returns nil; in every other case
    [count] is as it was.  For an image that [os.Stat] does not report
    missing (a file that exists already, or a failed [Stat]) the visitor
    does nothing after [Stat]: it returns what [Stat] returned, in the
    world [Stat] left, with [count] unchanged. *)
Theorem fetch_onLeaf_counts_downloads
    (localPath : string) (verbose : bool) (resp : Response)
    (node ct : string) (s : FetchState) :
  let r := fetch_onLeaf os_Stat os_IsNotExist os_MkdirAll os_Create io_Copy
                        localPath verbose resp node ct s in
  let d := downloaded os_Stat os_IsNotExist os_MkdirAll os_Create io_Copy
                      localPath resp node ct (world s) in
  let st := os_Stat (path.Join [path.Join [localPath; path.Dir node];
                                path.Base node]) (world s) in
  count (snd r) = (if d then int_add (count s) 1 else count s)
  /\ int_add (count s) 1 <> count s
  /\ (if d then fst r else None) = None
  /\ (if ((ct =? "image/png") || (ct =? "image/jpeg"))
          && negb (os_IsNotExist (fst st))
      then r = (fst st, inWorld s (snd st))
      else True).
Proof.
  cbv zeta. unfold fetch_onLeaf, downloaded.
  split; [|split; [apply int_add_one_changes|]].
  - destruct ((ct =? "image/png") || (ct =? "image/jpeg")); [|reflexivity].
    cbn [andb].
    destruct (os_Stat _ (world s)) as [err w1].
    destruct (os_IsNotExist err); [|now destruct err].
    cbn [andb].
    destruct (os_MkdirAll _ w1) as [[e|] w2]; [reflexivity|].
    destruct (os_Create _ w2) as [[e|] w3]; [reflexivity|].
    destruct (io_Copy _ resp w3) as [[n [e|]] w4]; reflexivity.
  - destruct ((ct =? "image/png") || (ct =? "image/jpeg"));
      [|split; reflexivity].
    cbn [andb].
    destruct (os_Stat _ (world s)) as [err w1]. cbn [fst snd].
    destruct (os_IsNotExist err); [|split; [reflexivity | now destruct err]].
    cbn [andb negb].
    split; [|exact I].
    destruct (os_MkdirAll _ w1) as [[e|] w2]; [reflexivity|].
    destruct (os_Create _ w2) as [[e|] w3]; [reflexivity|].
    destruct (io_Copy _ resp w3) as [[n [e|]] w4]; reflexivity.
Qed.

End CommandsOnAlbum.

Lemma commands_on_an_index_page_report_no_error_witness :
  ((GlobalString_url {| GlobalString_url := "http://g"; Args := [""];
                        Bool_recurse := true; Bool_verbose := false |} =? "")
   = false
   /\ nth_error [""] 0 = Some ""
   /\ get (World := Recorded malformed)
          ("http://g" ++ path.Join ["/var/albums"; ""]) []
      = (GetOk (htmlPage "http://g/var/albums"
                  {| tokens := [anchor "A"; tag html.StartTagToken "a";
                                anchor "B"];
                     ending := io_EOF |}),
         [EvGet "http://g/var/albums"])
   /\ getContentType
        (htmlPage "http://g/var/albums"
           {| tokens := [anchor "A"; tag html.StartTagToken "a"; anchor "B"];
              ending := io_EOF |}) = "text/html")
  /\ forall msg w',
       ls (Wd := Recorded malformed) (fun _ tr => tr) 2
          {| GlobalString_url := "http://g"; Args := [""];
             Bool_recurse := true; Bool_verbose := false |} []
       <> Some (Fatal msg, w')
       /\ diff (Wd := Recorded malformed) (fun _ tr => tr) os_ok os_missing 2
               {| GlobalString_url := "http://g"; Args := [""];
                  Bool_recurse := true; Bool_verbose := false |} []
          <> Some (Fatal msg, w')
       /\ fetch (Wd := Recorded malformed) os_ok os_missing os_ok os_ok io_ok 2
                {| GlobalString_url := "http://g"; Args := [""];
                   Bool_recurse := true; Bool_verbose := false |} []
          <> Some (Fatal msg, w').
Proof.
  split; [split; [reflexivity | split; [reflexivity | split; reflexivity]]|].
  exact (commands_on_an_index_page_report_no_error (Wd := Recorded malformed)
           (fun _ tr => tr) os_ok os_missing os_ok os_ok io_ok 2
           {| GlobalString_url := "http://g"; Args := [""];
              Bool_recurse := true; Bool_verbose := false |}
           "" [] _ _ eq_refl eq_refl eq_refl eq_refl).
Defined.

(** ** The retries of [get] *)

Section RetryFacts.

Variable show : Z -> string.

Let get' := retrying_get scripted_Get scripted_log scripted_Sleep show.

Lemma retrying_get_step url policy f t errs more log :
  get' url (t :: policy) (failures (f :: errs) ++ more, log)%list
  = get' url policy
         ((failures errs ++ more)%list,
          (log ++ retryTrace show [f] [t])%list).
Proof.
  unfold get'. cbn [retrying_get failures map app scripted_Get fst snd].
  unfold scripted_Sleep, scripted_log. cbn [fst snd retryTrace combine flat_map].
  now rewrite app_nil_r, <- app_assoc.
Qed.

(** X19.  [get] retries until an attempt gives a response: when the
    attempts that fail are no more than the intervals the policy gives,
    [get] returns the response of the first attempt that succeeds with a
    nil error, and for each failed attempt it has logged one line and
    slept the interval of the policy, in order. *)
Theorem get_retries_until_a_response
    (url : string) (errs : list (option Response * error))
    (policy : list Z) (resp : Response) (later : list GetResult)
    (log : list RetryEvent) :
  length errs <= length policy ->
  retrying_get scripted_Get scripted_log scripted_Sleep show url policy
               ((failures errs ++ GetOk resp :: later)%list, log)
  = (GetOk resp, (later, (log ++ retryTrace show errs policy)%list)).
Proof.
  fold get'. revert policy log.
  induction errs as [|f errs IH]; intros policy log Hlen.
  - unfold get'. destruct policy; cbn; now rewrite app_nil_r.
  - destruct policy as [|t policy]; [cbn in Hlen; lia|].
    rewrite retrying_get_step, IH by (cbn in Hlen; lia).
    cbn [retryTrace combine flat_map]. now rewrite <- !app_assoc.
Qed.

(** X20.  [get] gives up when the policy stops: when as many attempts
    fail as the policy gives intervals, and the next one fails too,
    [get] returns the error and the response of that last attempt and
    makes no more attempts. *)
Theorem get_gives_up_when_the_policy_stops
    (url : string) (errs : list (option Response * error))
    (policy : list Z) (last : option Response * error)
    (later : list GetResult) (log : list RetryEvent) :
  length errs = length policy ->
  retrying_get scripted_Get scripted_log scripted_Sleep show url policy
               ((failures errs ++ GetErr (fst last) (snd last) :: later)%list,
                log)
  = (GetErr (fst last) (snd last),
     (later, (log ++ retryTrace show errs policy)%list)).
Proof.
  fold get'. revert policy log.
  induction errs as [|f errs IH]; intros policy log Hlen.
  - destruct policy; [|discriminate]. unfold get'. cbn.
    now rewrite app_nil_r.
  - destruct policy as [|t policy]; [discriminate|].
    rewrite retrying_get_step, IH by (cbn in Hlen; lia).
    cbn [retryTrace combine flat_map]. now rewrite <- !app_assoc.
Qed.

End RetryFacts.

Lemma get_retries_until_a_response_witness :
  length [(@None Response, foreignError "dial tcp: connection refused");
          (@None Response, foreignError "dial tcp: i/o timeout")]
  <= length [500; 750; 1125]%Z
  /\ retrying_get scripted_Get scripted_log scripted_Sleep itoa "http://g/x"
       [500; 750; 1125]%Z
       ([GetErr None (foreignError "dial tcp: connection refused");
         GetErr None (foreignError "dial tcp: i/o timeout");
         GetOk (filePage "http://g/x" "image/png")], [])
     = (GetOk (filePage "http://g/x" "image/png"),
        ([], [Logged "dial tcp: connection refused waiting 500 to retry...";
              Slept 500;
              Logged "dial tcp: i/o timeout waiting 750 to retry...";
              Slept 750])).
Proof.
  assert (Hlen : length [(@None Response,
                          foreignError "dial tcp: connection refused");
                         (@None Response, foreignError "dial tcp: i/o timeout")]
                 <= length [500; 750; 1125]%Z) by (simpl; lia).
  split; [exact Hlen|].
  exact (get_retries_until_a_response itoa "http://g/x"
           [(None, foreignError "dial tcp: connection refused");
            (None, foreignError "dial tcp: i/o timeout")]
           [500; 750; 1125]%Z (filePage "http://g/x" "image/png") [] []
           Hlen).
Defined.

Lemma get_gives_up_when_the_policy_stops_witness :
  length [(@None Response, foreignError "dial tcp: connection refused")]
  = length [500%Z]
  /\ retrying_get scripted_Get scripted_log scripted_Sleep itoa "http://g/x"
       [500%Z]
       ([GetErr None (foreignError "dial tcp: connection refused");
         GetErr None (foreignError "dial tcp: i/o timeout");
         GetOk (filePage "http://g/x" "image/png")], [])
     = (GetErr None (foreignError "dial tcp: i/o timeout"),
        ([GetOk (filePage "http://g/x" "image/png")],
         [Logged "dial tcp: connection refused waiting 500 to retry...";
          Slept 500])).
Proof.
  split; [reflexivity|].
  exact (get_gives_up_when_the_policy_stops itoa "http://g/x"
           [(None, foreignError "dial tcp: connection refused")]
           [500%Z] (None, foreignError "dial tcp: i/o timeout")
           [GetOk (filePage "http://g/x" "image/png")] [] eq_refl).
Defined.

(** ** The verbose flag *)

Section Verbose.

Variables (site : Site) (address : string) (recurse : bool)
          (failsI : string -> string -> bool) (failsL : string -> bool).

Let walk (verbose : bool) (fuel : nat) (base : string) (depth : Z) :=
  walkPath (Wd := Recorded site) fuel address base recurse depth verbose
           (recIndex failsI) (recLeaf failsL).

Lemma calls_snoc_log tr msg : calls (tr ++ [EvLog msg]) = calls tr.
Proof. rewrite calls_app. cbn. apply app_nil_r. Qed.

Lemma calls_snoc tr1 tr2 e :
  calls tr1 = calls tr2 -> calls (tr1 ++ [e]) = calls (tr2 ++ [e]).
Proof. intros Hc. now rewrite !calls_app, Hc. Qed.

Ltac observe :=
  unfold done; cbn [observed option_map fst snd log_Printf Recorded].

Lemma rangeNodes_verbose fuel base depth nodes :
  (forall next d tr1 tr2, calls tr1 = calls tr2 ->
     observed (walk true fuel next d tr1) = observed (walk false fuel next d tr2)) ->
  forall tr1 tr2, calls tr1 = calls tr2 ->
    observed (rangeNodes (Wd := Recorded site) (walk true fuel) base recurse
                         depth (recIndex failsI) nodes tr1)
    = observed (rangeNodes (Wd := Recorded site) (walk false fuel) base recurse
                           depth (recIndex failsI) nodes tr2).
Proof.
  intros Hwalk. induction nodes as [|node rest IH]; intros tr1 tr2 Hc.
  - cbn [rangeNodes]. observe. now rewrite Hc.
  - cbn [rangeNodes].
    assert (Hi : forall tr,
              recIndex failsI base node depth tr
              = (if failsI base node
                 then Some (foreignError "index visitor failed") else None,
                 (tr ++ [EvIndex base node depth])%list)) by reflexivity.
    rewrite !Hi. clear Hi.
    pose proof (calls_snoc tr1 tr2 (EvIndex base node depth) Hc) as Hc1.
    destruct (failsI base node); [observe; now rewrite Hc1|].
    destruct recurse; [|now apply IH].
    specialize (Hwalk (path.Join [base; node]) (int_add depth 1) _ _ Hc1).
    destruct (walk true fuel _ _ _) as [[[r1|] t1]|];
      destruct (walk false fuel _ _ _) as [[[r2|] t2]|];
      cbn [observed option_map fst snd] in Hwalk;
      try discriminate; try exact Hwalk.
    injection Hwalk as Hr Ht. subst r2.
    destruct r1 as [e|]; cbn [handleWalkError]; [|now apply IH].
    destruct (is_leafError e); [|observe; now rewrite Ht].
    apply IH. cbn [log_Printf Recorded]. now rewrite !calls_snoc_log.
Qed.

Lemma walkPath_verbose fuel :
  forall base depth tr1 tr2, calls tr1 = calls tr2 ->
    observed (walk true fuel base depth tr1)
    = observed (walk false fuel base depth tr2).
Proof.
  induction fuel as [|fuel IH]; intros base depth tr1 tr2 Hc; [reflexivity|].
  unfold walk. rewrite !walkPath_S. cbv zeta.
  change (get (World := Recorded site) ?u ?t) with (site u, (t ++ [EvGet u])%list).
  pose proof (calls_snoc tr1 tr2
                (EvGet (address ++ path.Join ["/var/albums"; base])) Hc) as Hc1.
  destruct (site _) as [resp | [resp|] err]; [|observe; now rewrite Hc1..].
  destruct (getContentType resp =? "text/html").
  - destruct (getNodes _ (body resp)) as [nodes [err|]].
    + observe. now rewrite calls_snoc_log, Hc1.
    + pose proof (rangeNodes_verbose fuel base depth nodes IH _ _ Hc1) as Hr.
      unfold walk in Hr.
      destruct (rangeNodes _ _ _ _ _ nodes
                  (tr1 ++ [EvGet (address ++ path.Join ["/var/albums"; base])])%list)
        as [[[r1|] t1]|];
        destruct (rangeNodes _ _ _ _ _ nodes
                    (tr2 ++ [EvGet (address ++ path.Join ["/var/albums"; base])])%list)
        as [[[r2|] t2]|];
        cbn [observed option_map fst snd] in Hr;
        try discriminate; try exact Hr; try reflexivity.
      injection Hr as _ Ht. observe. now rewrite calls_snoc_log, Ht.
  - assert (Hl : forall tr,
              recLeaf failsL resp base (getContentType resp) tr
              = (if failsL base
                 then Some (foreignError "leaf visitor failed") else None,
                 (tr ++ [EvLeaf base (getContentType resp)])%list))
      by reflexivity.
    rewrite !Hl. clear Hl.
    pose proof (calls_snoc _ _ (EvLeaf base (getContentType resp)) Hc1) as Hc2.
    destruct (failsL base); observe; [now rewrite Hc2|].
    now rewrite calls_snoc_log, Hc2.
Qed.

(** X21.  The verbose flag changes the log and nothing else: on any
    server and with visitors failing anywhere, a walk with the flag
    returns what the walk without it returns (the same error, the same
    panic, out of fuel alike) after the same calls of [get] and of the
    visitors. *)
Theorem verbose_changes_only_the_log (fuel : nat) (base : string)
    (depth : Z) (tr : list Event) :
  observed (walkPath (Wd := Recorded site) fuel address base recurse depth true
                     (recIndex failsI) (recLeaf failsL) tr)
  = observed (walkPath (Wd := Recorded site) fuel address base recurse depth
                       false (recIndex failsI) (recLeaf failsL) tr).
Proof.
  intros. apply walkPath_verbose. reflexivity.
Qed.

End Verbose.

(** ** The exclusion test in the walk *)

Section Exclusion.

Variables (site : Site) (address : string) (recurse verbose : bool)
          (failsI : string -> string -> bool) (failsL : string -> bool).

Let walk (fuel : nat) (base : string) (depth : Z) :=
  walkPath (Wd := Recorded site) fuel address base recurse depth verbose
           (recIndex failsI) (recLeaf failsL).




End Exclusion.



